(** * Standard Notes desktop shell: start-document builder and application lifecycle

    A shallow embedding of [app/javascripts/main/indexBuilder.ts] and of the
    lifecycle coordinator ([initializeApplication] and the handlers it
    registers), with the properties of the specification stated over it. *)

From Stdlib Require Import Bool Arith Lia List Ascii String.
Import ListNotations.

Open Scope string_scope.

(** ** JavaScript strings

    A JavaScript string is a finite sequence of code units; [string] plays
    that role here, one [ascii] per code unit.  Both placeholder tokens are
    ASCII, and nothing below depends on the width of a code unit. *)

Module JSString.

(** [s.substring(n)] for [n] within bounds. *)
Fixpoint drop (n : nat) (s : string) : string :=
  match n, s with
  | O, _ => s
  | S _, EmptyString => EmptyString
  | S k, String _ s' => drop k s'
  end.

Definition snoc (s : string) (c : ascii) : string := s ++ String c EmptyString.

(** [occurs pat s]: [pat] matches at some position of [s]. *)
Fixpoint occurs (pat s : string) : bool :=
  prefix pat s ||
  match s with
  | EmptyString => false
  | String _ s' => occurs pat s'
  end.

(** [contains c s]: the code unit [c] appears in [s]. *)
Fixpoint contains (c : ascii) (s : string) : bool :=
  match s with
  | EmptyString => false
  | String d s' => Ascii.eqb d c || contains c s'
  end.

(** ECMAScript GetSubstitution(matched, str, position, captures,
    namedCaptures, replacement) when there are no captures and no named
    captures, which is the case for a string pattern and for a regular
    expression without groups.  [before] is [str] up to [position], [after]
    is [str] from the end of the match.  Only [$$], [$&], [$`] and [$'] are
    replacement patterns then; [$n] and [$<] stay as they are written. *)
Fixpoint GetSubstitution (matched before after replacement : string) : string :=
  match replacement with
  | EmptyString => EmptyString
  | String c r =>
      if Ascii.eqb c "$" then
        match r with
        | EmptyString => String "$" EmptyString
        | String d r' =>
            if Ascii.eqb d "$" then
              String "$" (GetSubstitution matched before after r')
            else if Ascii.eqb d "&" then
              matched ++ GetSubstitution matched before after r'
            else if Ascii.eqb d "`" then
              before ++ GetSubstitution matched before after r'
            else if Ascii.eqb d "'" then
              after ++ GetSubstitution matched before after r'
            else
              String "$" (String d (GetSubstitution matched before after r'))
        end
      else String c (GetSubstitution matched before after r)
  end.

(** [String.prototype.replace(searchString, replaceValue)] with a string
    pattern: the first occurrence only.  [before] is the part of the
    subject already scanned. *)
Fixpoint replaceFrom (searchString replaceValue before s : string) : string :=
  if prefix searchString s then
    let after := drop (length searchString) s in
    before ++ GetSubstitution searchString before after replaceValue ++ after
  else
    match s with
    | EmptyString => before
    | String c s' => replaceFrom searchString replaceValue (snoc before c) s'
    end.

Definition replace (searchString replaceValue s : string) : string :=
  replaceFrom searchString replaceValue EmptyString s.

(** [String.prototype.replace(/pattern/g, replaceValue)] for a regular
    expression that is a literal text without groups: every match, leftmost
    first, the scan resuming after each match.  [skip] counts the code units
    of the current match that are still to be passed over.  An empty match
    advances by one code unit and also matches at the end of the subject. *)
Fixpoint replaceAllFrom (pattern replaceValue before : string) (skip : nat)
    (s : string) : string :=
  match s with
  | EmptyString =>
      match pattern with
      | EmptyString => GetSubstitution pattern before EmptyString replaceValue
      | String _ _ => EmptyString
      end
  | String c s' =>
      match skip with
      | S k => replaceAllFrom pattern replaceValue (snoc before c) k s'
      | O =>
          if prefix pattern s then
            let after := drop (length pattern) s in
            let sub := GetSubstitution pattern before after replaceValue in
            match length pattern with
            | O => sub ++ String c (replaceAllFrom pattern replaceValue (snoc before c) 0 s')
            | S k => sub ++ replaceAllFrom pattern replaceValue (snoc before c) k s'
            end
          else String c (replaceAllFrom pattern replaceValue (snoc before c) 0 s')
      end
  end.

Definition replaceAll (pattern replaceValue s : string) : string :=
  replaceAllFrom pattern replaceValue EmptyString 0 s.

End JSString.

(** ** [indexBuilder.ts] *)

Module IndexBuilder.
Import JSString.

Definition EXT_SERVER_HOST_NAME : string := "{{EXT_SERVER_HOST_NAME}}".
Definition BASE_URL : string := "{{BASE_URL}}".

(** [buildIndexFile({ hostName, baseUrl })].  [index] is the text imported
    from [index.html], which the function closes over. *)
Definition buildIndexFile (index hostName baseUrl : string) : string :=
  replaceAll BASE_URL baseUrl (replace EXT_SERVER_HOST_NAME hostName index).

End IndexBuilder.

(** ** Node's [path] module

    [path.join] belongs to Node, not to the repository.  The coordinator is
    modelled over any implementation of it; [Path.join] is the POSIX one as
    Node documents it (non-empty arguments joined by [/], then normalised:
    empty and [.] segments dropped, [..] resolved, a trailing [/] kept), for
    running the model on concrete paths. *)

Module Path.
Import JSString.

Fixpoint split (cur s : string) : list string :=
  match s with
  | EmptyString => [cur]
  | String c s' =>
      if Ascii.eqb c "/" then cur :: split EmptyString s'
      else split (snoc cur c) s'
  end.

Definition pushSegment (allowAboveRoot : bool) (res : list string)
    (seg : string) : list string :=
  if (seg =? "") || (seg =? ".") then res
  else if seg =? ".." then
    match rev res with
    | last :: _ =>
        if last =? ".." then (if allowAboveRoot then res ++ [".."] else res)
        else removelast res
    | [] => if allowAboveRoot then res ++ [".."] else res
    end
  else res ++ [seg].

Definition normalizeString (path : string) (allowAboveRoot : bool) : string :=
  concat "/" (fold_left (pushSegment allowAboveRoot) (split "" path) []).

Definition endsWithSlash (s : string) : bool :=
  match rev (list_ascii_of_string s) with
  | c :: _ => Ascii.eqb c "/"
  | [] => false
  end.

Definition normalize (path : string) : string :=
  if path =? "" then "."
  else
    let isAbsolute := prefix "/" path in
    let trailingSeparator := endsWithSlash path in
    let p := normalizeString path (negb isAbsolute) in
    if p =? "" then
      if isAbsolute then "/" else if trailingSeparator then "./" else "."
    else
      let p := if trailingSeparator then p ++ "/" else p in
      if isAbsolute then "/" ++ p else p.

Definition join (args : list string) : string :=
  match filter (fun a => negb (a =? "")) args with
  | [] => "."
  | parts => normalize (concat "/" parts)
  end.

End Path.

(** ** The coordinator: data *)

(** Electron's [BrowserWindow], as far as the coordinator uses it.  The
    window belongs to Electron; the coordinator only queries it and calls
    its methods, so it is an interface here. *)
Class BrowserWindow (W : Type) := {
  created : W;
  isVisible : W -> bool;
  isMinimized : W -> bool;
  show : W -> W;
  restore : W -> W;
  focus : W -> W;
  loadURL : string -> W -> W
}.

(** A window kept as three flags and the document it shows: [show] makes it
    visible and focused, [restore] ends the minimised state, [focus] focuses
    it, as Electron documents the methods. *)
Record FlagWindow := {
  fw_visible : bool;
  fw_minimized : bool;
  fw_focused : bool;
  fw_url : option string
}.

#[export] Instance FlagWindow_BrowserWindow : BrowserWindow FlagWindow := {
  created := {| fw_visible := false; fw_minimized := false;
                fw_focused := false; fw_url := None |};
  isVisible := fw_visible;
  isMinimized := fw_minimized;
  show w := {| fw_visible := true; fw_minimized := fw_minimized w;
               fw_focused := true; fw_url := fw_url w |};
  restore w := {| fw_visible := fw_visible w; fw_minimized := false;
                  fw_focused := fw_focused w; fw_url := fw_url w |};
  focus w := {| fw_visible := fw_visible w; fw_minimized := fw_minimized w;
                fw_focused := true; fw_url := fw_url w |};
  loadURL u w := {| fw_visible := fw_visible w; fw_minimized := fw_minimized w;
                    fw_focused := fw_focused w; fw_url := Some u |}
}.

Module Application.
Import JSString IndexBuilder.

(** Modelled from the spec: [platforms.ts] ([isMac], [isWindows], [isLinux])
    is not among the sources; the three predicates tell the platform the
    process runs on, macOS being the dock-persistent one. *)
Inductive Platform := Mac | Windows | Linux.

Definition isMac (p : Platform) : bool :=
  match p with Mac => true | _ => false end.
Definition isWindows (p : Platform) : bool :=
  match p with Windows => true | _ => false end.
Definition isLinux (p : Platform) : bool :=
  match p with Linux => true | _ => false end.

(** [shared/ipcMessages.ts]: the six channels the coordinator listens on. *)
Inductive IpcMessage :=
| DisplayAppMenu
| InitialDataLoaded
| MajorDataChange
| ExtensionsServerAddress
| UseSystemMenuBar
| WebRoot.

Inductive Promise (A : Type) :=
| Pending
| Fulfilled (value : A)
| Rejected (reason : string).
Arguments Pending {A}.
Arguments Fulfilled {A} value.
Arguments Rejected {A} reason.

(** The promise objects this program creates. *)
Inductive PromiseRef :=
| HostNamePromise      (* createExtensionsServer() *)
| WriteFilePromise     (* fs.promises.writeFile(...) *)
| AddressPromise       (* initializeExtensionsServer(...) *)
| FinishPromise.       (* finishApplicationInitialization(...) *)

(** What the process is started with and cannot change. *)
Record Host := {
  dirname : string;              (* __dirname *)
  userData : string;             (* app.getPath('userData') *)
  locale : string;               (* app.getLocale() *)
  platform : Platform;
  lockGranted : bool;            (* app.requestSingleInstanceLock() *)
  dev : bool;                    (* isDev() *)
  index : string                 (* the imported index.html *)
}.

(** What the process reads from its surroundings each time it asks. *)
Record Outside := {
  APP_RELATIVE_PATH : option string;   (* process.env *)
  useSystemMenuBar : bool;             (* store.get(StoreKeys.UseSystemMenuBar) *)
  shouldMinimizeToTray : bool          (* trayManager.shouldMinimizeToTray() *)
}.

(** [interface AppState].  The store is a handle on the settings file under
    [userData]; [extensionsServerAddress] holds a promise object. *)
Record AppState (W : Type) := {
  store : string;
  startUrl : string;
  webRoot : string;
  extensionsServerAddress : PromiseRef;
  isPrimaryInstance : bool;
  willQuitApp : bool;
  windowState : option W
}.
Arguments store {W}.
Arguments startUrl {W}.
Arguments webRoot {W}.
Arguments extensionsServerAddress {W}.
Arguments isPrimaryInstance {W}.
Arguments willQuitApp {W}.
Arguments windowState {W}.

(** What a request/reply handler hands back to [ipcMain.handle]. *)
Inductive Reply :=
| ReplyPromise (p : PromiseRef)
| ReplyBool (b : bool)
| ReplyString (s : string).

(** How a synchronous call ends. *)
Inductive Completion (A : Type) :=
| Normal (value : A)
| Throw (error : string).
Arguments Normal {A} value.
Arguments Throw {A} error.

(** The start document on disk during this process start. *)
Inductive Document :=
| Untouched                       (* as the previous start left it *)
| BeingWritten (content : string)
| Written (content : string)
| WriteBroken.

(** Calls the coordinator makes on its collaborators. *)
Inductive Effect :=
| RequestSingleInstanceLock
| NewStore (path : string)
| CreateExtensionsServer
| FsWriteFile (path content : string)
| ShowMessageBoxSync (message : string)
| AppQuit
| AppOn (event : string)
| ExposeAppState
| ConsoleWarn (text : string)
| ConsoleLog
| InitializeStrings (appLocale : string)
| CreateWindowState
| IpcMainOn (m : IpcMessage)
| IpcMainHandle (m : IpcMessage)
| CreateTrayIcon
| WindowLoadURL (url : string)
| WindowShow
| WindowRestore
| WindowFocus
| CheckForUpdate
| PopupMenu
| BeginBackups
| PerformBackup
| IpcReturn (m : IpcMessage) (r : Completion Reply)
| UnhandledRejection (reason : string).

(** What the event loop delivers to the process. *)
Inductive Event (W : Type) :=
| AppReady
| AppSecondInstance
| AppWindowAllClosed
| AppBeforeQuit
| AppActivate
| ServerStarted (hostName : string)    (* createExtensionsServer() fulfils *)
| ServerFailed (error : string)        (* createExtensionsServer() rejects *)
| WriteFileDone                        (* writeFile fulfils *)
| WriteFileFailed (error : string)     (* writeFile rejects *)
| IpcSend (m : IpcMessage)             (* ipcRenderer.send *)
| IpcInvoke (m : IpcMessage)           (* ipcRenderer.invoke *)
| WindowTeardown                       (* the window calls teardown() *)
| WindowChanged (w : W)                (* the user or the OS acts on the window *)
| OutsideChanged (o : Outside).        (* environment or settings change *)
Arguments AppReady {W}.
Arguments AppSecondInstance {W}.
Arguments AppWindowAllClosed {W}.
Arguments AppBeforeQuit {W}.
Arguments AppActivate {W}.
Arguments ServerStarted {W} hostName.
Arguments ServerFailed {W} error.
Arguments WriteFileDone {W}.
Arguments WriteFileFailed {W} error.
Arguments IpcSend {W} m.
Arguments IpcInvoke {W} m.
Arguments WindowTeardown {W}.
Arguments WindowChanged {W} w.
Arguments OutsideChanged {W} o.

Inductive Obs (W : Type) :=
| Occurred (e : Event W)
| Did (eff : Effect).
Arguments Occurred {W} e.
Arguments Did {W} eff.

(** The process: the application state, the promises, what is registered
    with Electron, the surroundings, and the record of what happened,
    newest first. *)
Record World (W : Type) := {
  state : AppState W;
  hostName : Promise string;
  writeFile : option (Promise unit);
  address : Promise string;
  finish : option (Promise unit);
  ipcHandlers : bool;
  readyEmitted : bool;
  outside : Outside;
  document : Document;
  trace : list (Obs W)
}.
Arguments state {W}.
Arguments hostName {W}.
Arguments writeFile {W}.
Arguments address {W}.
Arguments finish {W}.
Arguments ipcHandlers {W}.
Arguments readyEmitted {W}.
Arguments outside {W}.
Arguments document {W}.
Arguments trace {W}.

(** ** The coordinator: operations *)

Section Coordinator.

Context {W : Type} {BW : BrowserWindow W}.

(** Node's [path.join], and the process's fixed surroundings. *)
Variable path_join : list string -> string.
Variable host : Host.

Definition Action := World W -> World W.

Definition seq_action (a b : Action) : Action := fun w => b (a w).
Local Infix ";;" := seq_action (at level 61, left associativity).

Definition record (o : Obs W) : Action := fun w =>
  {| state := state w; hostName := hostName w; writeFile := writeFile w;
     address := address w; finish := finish w; ipcHandlers := ipcHandlers w;
     readyEmitted := readyEmitted w; outside := outside w;
     document := document w; trace := o :: trace w |}.

Definition emit (eff : Effect) : Action := record (Did eff).

Definition set_state (f : AppState W -> AppState W) : Action := fun w =>
  {| state := f (state w); hostName := hostName w; writeFile := writeFile w;
     address := address w; finish := finish w; ipcHandlers := ipcHandlers w;
     readyEmitted := readyEmitted w; outside := outside w;
     document := document w; trace := trace w |}.

Definition set_hostName (p : Promise string) : Action := fun w =>
  {| state := state w; hostName := p; writeFile := writeFile w;
     address := address w; finish := finish w; ipcHandlers := ipcHandlers w;
     readyEmitted := readyEmitted w; outside := outside w;
     document := document w; trace := trace w |}.

Definition set_writeFile (p : option (Promise unit)) (d : Document) : Action :=
  fun w =>
  {| state := state w; hostName := hostName w; writeFile := p;
     address := address w; finish := finish w; ipcHandlers := ipcHandlers w;
     readyEmitted := readyEmitted w; outside := outside w;
     document := d; trace := trace w |}.

Definition set_address (p : Promise string) : Action := fun w =>
  {| state := state w; hostName := hostName w; writeFile := writeFile w;
     address := p; finish := finish w; ipcHandlers := ipcHandlers w;
     readyEmitted := readyEmitted w; outside := outside w;
     document := document w; trace := trace w |}.

Definition set_finish (p : option (Promise unit)) : Action := fun w =>
  {| state := state w; hostName := hostName w; writeFile := writeFile w;
     address := address w; finish := p; ipcHandlers := ipcHandlers w;
     readyEmitted := readyEmitted w; outside := outside w;
     document := document w; trace := trace w |}.

Definition set_ipcHandlers (b : bool) : Action := fun w =>
  {| state := state w; hostName := hostName w; writeFile := writeFile w;
     address := address w; finish := finish w; ipcHandlers := b;
     readyEmitted := readyEmitted w; outside := outside w;
     document := document w; trace := trace w |}.

Definition set_readyEmitted (b : bool) : Action := fun w =>
  {| state := state w; hostName := hostName w; writeFile := writeFile w;
     address := address w; finish := finish w; ipcHandlers := ipcHandlers w;
     readyEmitted := b; outside := outside w;
     document := document w; trace := trace w |}.

Definition set_outside (o : Outside) : Action := fun w =>
  {| state := state w; hostName := hostName w; writeFile := writeFile w;
     address := address w; finish := finish w; ipcHandlers := ipcHandlers w;
     readyEmitted := readyEmitted w; outside := o;
     document := document w; trace := trace w |}.

Definition with_willQuitApp (b : bool) (st : AppState W) : AppState W :=
  {| store := store st; startUrl := startUrl st; webRoot := webRoot st;
     extensionsServerAddress := extensionsServerAddress st;
     isPrimaryInstance := isPrimaryInstance st; willQuitApp := b;
     windowState := windowState st |}.

Definition with_windowState (ws : option W) (st : AppState W) : AppState W :=
  {| store := store st; startUrl := startUrl st; webRoot := webRoot st;
     extensionsServerAddress := extensionsServerAddress st;
     isPrimaryInstance := isPrimaryInstance st; willQuitApp := willQuitApp st;
     windowState := ws |}.

(** A method call on the window behind [state.windowState], when there is
    one. *)
Definition on_window (f : W -> W) : Action :=
  set_state (fun st => with_windowState (option_map f (windowState st)) st).

(** *** [finishApplicationInitialization], from its [await] on *)
Definition resumeFinish : Action := fun w =>
  match address w with
  | Pending => w
  | Fulfilled _ =>
      (emit (WindowLoadURL (startUrl (state w)));;
       on_window (loadURL (startUrl (state w)));;
       set_finish (Some (Fulfilled tt))) w
  | Rejected e =>
      (set_finish (Some (Rejected e));; emit (UnhandledRejection e)) w
  end.

(** *** The promise [state.extensionsServerAddress] settles

    Its reactions run in the order they were attached: the [catch] callback
    of [initializeApplication], then the [await] of
    [finishApplicationInitialization] if that call is suspended on it. *)
Definition catchCallback : Action := fun w =>
  match address w with
  | Rejected error => (emit (ShowMessageBoxSync error);; emit AppQuit) w
  | _ => w
  end.

Definition settleAddress (p : Promise string) : Action :=
  set_address p;;
  catchCallback;;
  (fun w => match finish w with
            | Some Pending => resumeFinish w
            | _ => w
            end).

(** *** [initializeExtensionsServer], after each of its two [await]s *)
Definition resumeAfterHostName (h : string) : Action := fun w =>
  let content := buildIndexFile (index host) h (webRoot (state w)) in
  (emit (FsWriteFile (startUrl (state w)) content);;
   set_writeFile (Some Pending) (BeingWritten content)) w.

Definition resumeAfterWriteFile : Action := fun w =>
  match hostName w with
  | Fulfilled h => settleAddress (Fulfilled h) w
  | _ => w
  end.

(** *** [registerIpcEventListeners] *)
Definition registerIpcEventListeners : Action :=
  emit (IpcMainOn DisplayAppMenu);;
  emit (IpcMainOn InitialDataLoaded);;
  emit (IpcMainOn MajorDataChange);;
  emit (IpcMainHandle ExtensionsServerAddress);;
  emit (IpcMainHandle UseSystemMenuBar);;
  emit (IpcMainHandle WebRoot);;
  set_ipcHandlers true.

(** The three [ipcMain.on] listeners. *)
Definition ipcListener (m : IpcMessage) : option Effect :=
  match m with
  | DisplayAppMenu => Some PopupMenu
  | InitialDataLoaded => Some BeginBackups
  | MajorDataChange => Some PerformBackup
  | _ => None
  end.

(** The three [ipcMain.handle] callbacks: how each call ends. *)
Definition ipcHandler (m : IpcMessage) (w : World W) : option (Completion Reply) :=
  match m with
  | ExtensionsServerAddress =>
      Some (Normal (ReplyPromise (extensionsServerAddress (state w))))
  | UseSystemMenuBar =>
      Some (Normal (ReplyBool (useSystemMenuBar (outside w))))
  | WebRoot =>
      Some (Normal (ReplyString
        match APP_RELATIVE_PATH (outside w) with
        | Some rel => path_join ["file://"; dirname host; rel]
        | None => path_join ["file://"; dirname host]
        end))
  | _ => None
  end.

(** *** [finishApplicationInitialization] *)
Definition finishApplicationInitialization : Action :=
  emit (InitializeStrings (locale host));;
  emit CreateWindowState;;
  set_state (with_windowState (Some created));;
  registerIpcEventListeners;;
  (fun w =>
     if (isWindows (platform host) || isLinux (platform host))
        && shouldMinimizeToTray (outside w)
     then emit CreateTrayIcon w else w);;
  set_finish (Some Pending);;
  resumeFinish.

(** *** The listeners of [registerSingleInstanceHandler] and
    [registerAppEventListeners] *)
Definition onSecondInstance : Action := fun w =>
  match windowState (state w) with
  | None => w
  | Some window =>
      let w1 :=
        if negb (isVisible window)
        then (emit WindowShow;; on_window show) w else w in
      let w2 :=
        match windowState (state w1) with
        | Some window1 =>
            if isMinimized window1
            then (emit WindowRestore;; on_window restore) w1 else w1
        | None => w1
        end in
      (emit WindowFocus;; on_window focus) w2
  end.

Definition onWindowAllClosed : Action := fun w =>
  if negb (isMac (platform host)) then emit AppQuit w else w.

Definition onBeforeQuit : Action := set_state (with_willQuitApp true).

Definition onActivate : Action := fun w =>
  match windowState (state w) with
  | None => w
  | Some _ => (emit WindowShow;; on_window show;; emit CheckForUpdate) w
  end.

Definition onReady : Action := fun w =>
  if negb (isPrimaryInstance (state w)) then
    (emit (ConsoleWarn "Quiting app and focusing existing instance.");;
     emit AppQuit) w
  else finishApplicationInitialization w.

(** *** [initializeApplication]

    The two assignments to [app.name] and [app.allowRendererProcessReuse]
    that open the function configure Electron and are not recorded.  The
    fields of the object literal are evaluated in the order they are
    written: the store is created before [initializeExtensionsServer] is
    called, and that call is made whatever [requestSingleInstanceLock]
    returned. *)
Definition initialState (o : Outside) : AppState W :=
  {| store := userData host;
     startUrl := path_join [userData host; "index.html"];
     webRoot := match APP_RELATIVE_PATH o with
                | Some rel => path_join [dirname host; rel]
                | None => dirname host
                end;
     extensionsServerAddress := AddressPromise;
     isPrimaryInstance := lockGranted host;
     willQuitApp := false;
     windowState := None |}.

Definition initializeApplication (o : Outside) : World W :=
  (emit RequestSingleInstanceLock;;
   emit (NewStore (userData host));;
   emit CreateExtensionsServer;;
   emit (AppOn "second-instance");;
   emit (AppOn "window-all-closed");;
   emit (AppOn "before-quit");;
   emit (AppOn "activate");;
   emit (AppOn "ready");;
   (fun w => if dev host then emit ExposeAppState w else w))
  {| state := initialState o; hostName := Pending; writeFile := None;
     address := Pending; finish := None; ipcHandlers := false;
     readyEmitted := false; outside := o; document := Untouched;
     trace := [] |}.

(** *** The event loop

    An event that cannot happen in the state it meets is dropped: [ready] is
    emitted once, a promise settles once, and only an existing window is
    torn down or acted upon. *)
Definition isSome {A : Type} (o : option A) : bool :=
  match o with Some _ => true | None => false end.

Definition enabled (e : Event W) (w : World W) : bool :=
  match e with
  | AppReady => negb (readyEmitted w)
  | ServerStarted _ | ServerFailed _ =>
      match hostName w with Pending => true | _ => false end
  | WriteFileDone | WriteFileFailed _ =>
      match writeFile w with Some Pending => true | _ => false end
  | WindowTeardown | WindowChanged _ => isSome (windowState (state w))
  | _ => true
  end.

Definition handle (e : Event W) : Action :=
  match e with
  | AppReady => set_readyEmitted true;; onReady
  | AppSecondInstance => onSecondInstance
  | AppWindowAllClosed => onWindowAllClosed
  | AppBeforeQuit => onBeforeQuit
  | AppActivate => onActivate
  | ServerStarted h => set_hostName (Fulfilled h);; resumeAfterHostName h
  | ServerFailed error =>
      set_hostName (Rejected error);; settleAddress (Rejected error)
  | WriteFileDone => fun w =>
      (set_writeFile (Some (Fulfilled tt))
         match document w with
         | BeingWritten content => Written content
         | d => d
         end;;
       resumeAfterWriteFile) w
  | WriteFileFailed error =>
      set_writeFile (Some (Rejected error)) WriteBroken;;
      settleAddress (Rejected error)
  | IpcSend m => fun w =>
      if ipcHandlers w then
        match ipcListener m with
        | Some eff => emit eff w
        | None => w
        end
      else w
  | IpcInvoke m => fun w =>
      if ipcHandlers w then
        match ipcHandler m w with
        | Some c =>
            ((fun w => match m with WebRoot => emit ConsoleLog w | _ => w end);;
             emit (IpcReturn m c)) w
        | None => w
        end
      else w
  | WindowTeardown => set_state (with_windowState None)
  | WindowChanged window => set_state (with_windowState (Some window))
  | OutsideChanged o => set_outside o
  end.

Definition step (e : Event W) (w : World W) : World W :=
  if enabled e w then handle e (record (Occurred e) w) else w.

Definition run (events : list (Event W)) (w : World W) : World W :=
  fold_left (fun w e => step e w) events w.

(** The record in the order things happened. *)
Definition history (w : World W) : list (Obs W) := rev (trace w).

(** The value of a promise object. *)
Definition promiseOf (w : World W) (p : PromiseRef) : Promise string :=
  match p with
  | HostNamePromise => hostName w
  | AddressPromise => address w
  | WriteFilePromise =>
      match writeFile w with
      | Some (Fulfilled _) => Fulfilled ""
      | Some (Rejected e) => Rejected e
      | _ => Pending
      end
  | FinishPromise =>
      match finish w with
      | Some (Fulfilled _) => Fulfilled ""
      | Some (Rejected e) => Rejected e
      | _ => Pending
      end
  end.

(** What the requester of an [ipcRenderer.invoke] has received so far for a
    reply: a promise is awaited, any other value is passed on at once. *)
Definition received (w : World W) (r : Reply) : option (Completion Reply) :=
  match r with
  | ReplyPromise p =>
      match promiseOf w p with
      | Pending => None
      | Fulfilled v => Some (Normal (ReplyString v))
      | Rejected e => Some (Throw e)
      end
  | _ => Some (Normal r)
  end.

End Coordinator.

End Application.

(** ** Vocabulary for the start-document builder *)

Module ReplaceSpec.
Import JSString IndexBuilder.

(** No match of [pat] starts in [s] at an index below [n]. *)
Definition NoMatchBefore (pat : string) (n : nat) (s : string) : Prop :=
  forall i, i < n -> prefix pat (drop i s) = false.

(** [out] is [s] with its first occurrence of [pat], if any, turned into
    [r]; the rest of [s] is as it was. *)
Definition ReplacedFirst (pat r s out : string) : Prop :=
  (occurs pat s = false /\ out = s) \/
  (exists pre post,
      s = pre ++ pat ++ post /\
      NoMatchBefore pat (length pre) s /\
      out = pre ++ r ++ post).

(** [segs] are the pieces of [s] between the occurrences of [pat]. *)
Definition Pieces (pat : string) (segs : list string) (s : string) : Prop :=
  Forall (fun seg => occurs pat seg = false) segs /\ s = concat pat segs.

(** No proper, non-empty suffix of [pat] starts [pat]: two occurrences of
    [pat] never overlap. *)
Definition borderless (pat : string) : bool :=
  forallb (fun k => negb (prefix (drop k pat) pat)) (seq 1 (length pat - 1)).

(** A template as the specification describes it: text with the two tokens
    in it, and the document in which every token is substituted. *)
Inductive Piece :=
| Text (s : string)
| HostToken
| BaseToken.

Fixpoint render (ps : list Piece) : string :=
  match ps with
  | [] => ""
  | Text s :: ps' => s ++ render ps'
  | HostToken :: ps' => EXT_SERVER_HOST_NAME ++ render ps'
  | BaseToken :: ps' => BASE_URL ++ render ps'
  end.

Fixpoint fill (hostName baseUrl : string) (ps : list Piece) : string :=
  match ps with
  | [] => ""
  | Text s :: ps' => s ++ fill hostName baseUrl ps'
  | HostToken :: ps' => hostName ++ fill hostName baseUrl ps'
  | BaseToken :: ps' => baseUrl ++ fill hostName baseUrl ps'
  end.

Definition scenarioTemplate : string :=
  "<script src='http://{{EXT_SERVER_HOST_NAME}}'></script><img src='{{BASE_URL}}/a.png'><img src='{{BASE_URL}}/b.png'>".

Definition scenarioDocument : string :=
  "<script src='http://ext.local:9999'></script><img src='/app/root/a.png'><img src='/app/root/b.png'>".

(** The last code unit of [String d s]. *)
Fixpoint lastOr (d : ascii) (s : string) : ascii :=
  match s with
  | EmptyString => d
  | String c s' => lastOr c s'
  end.

(** [r] cannot take part in an occurrence of [pat]: it is not empty, its
    first and last code units do not appear in [pat], and [pat] does not
    occur in it. *)
Definition Insulated (pat r : string) : bool :=
  match r with
  | EmptyString => false
  | String c r' =>
      negb (contains c pat) && negb (contains (lastOr c r') pat)
      && negb (occurs pat r)
  end.

(** [pat] occurs in [s] at most once. *)
Definition AtMostOnce (pat s : string) : Prop :=
  occurs pat s = false \/
  exists pre post,
    s = pre ++ pat ++ post /\ occurs pat pre = false /\ occurs pat post = false.

(** [out] is [s] with its first occurrence of [pat], if any, turned into
    what JavaScript substitutes for the replacement value [r] at that
    place; the rest of [s] is as it was. *)
Definition SubstitutedFirst (pat r s out : string) : Prop :=
  (occurs pat s = false /\ out = s) \/
  (exists pre post,
      s = pre ++ pat ++ post /\
      NoMatchBefore pat (length pre) s /\
      out = pre ++ GetSubstitution pat pre post r ++ post).

(** The pieces [segs] of a text, and between each two of them what
    JavaScript substitutes for [r] at the occurrence of [pat] that stood
    there; [before] is the text ahead of the first piece. *)
Fixpoint substituteBetween (pat r before : string) (segs : list string) : string :=
  match segs with
  | [] => ""
  | seg :: rest =>
      match rest with
      | [] => seg
      | _ :: _ =>
          seg ++ GetSubstitution pat (before ++ seg) (concat pat rest) r
              ++ substituteBetween pat r ((before ++ seg) ++ pat) rest
      end
  end.

End ReplaceSpec.


(** ** Vocabulary for paths *)

Module PathSpec.
Import JSString Path.

(** A segment that names a directory entry: not empty, not [.], not [..]. *)
Definition named (seg : string) : bool :=
  negb (seg =? "") && negb (seg =? ".") && negb (seg =? "..").

(** Walking the segments of a path, starting [depth] directories below the
    root: the depth reached, or [None] when a [..] is met at the root. *)
Fixpoint descend (depth : nat) (segs : list string) : option nat :=
  match segs with
  | [] => Some depth
  | seg :: rest =>
      if (seg =? "") || (seg =? ".") then descend depth rest
      else if seg =? ".." then
        match depth with
        | O => None
        | S k => descend k rest
        end
      else descend (S depth) rest
  end.

(** [dir] is absolute, and walking [dir] and then the relative path of the
    environment variable, when there is one, never takes [..] from the root
    and ends below the root. *)
Definition staysBelowRoot (dir : string) (env : option string) : bool :=
  match env with
  | None => true
  | Some rel =>
      prefix "/" dir &&
      match descend 0 (split "" dir ++ split "" rel) with
      | Some (S _) => true
      | _ => false
      end
  end.

End PathSpec.

(** ** Concrete process starts *)

Module Scenarios.
Import Application ReplaceSpec.

Definition primaryHost : Host :=
  {| dirname := "/opt/sn/app/dist"; userData := "/home/u/.config/sn";
     locale := "en"; platform := Linux; lockGranted := true; dev := false;
     index := scenarioTemplate |}.

(** The same start with the single-instance lock held by another process. *)
Definition losingHost : Host :=
  {| dirname := "/opt/sn/app/dist"; userData := "/home/u/.config/sn";
     locale := "en"; platform := Linux; lockGranted := false; dev := false;
     index := scenarioTemplate |}.

Definition plainOutside : Outside :=
  {| APP_RELATIVE_PATH := None; useSystemMenuBar := false;
     shouldMinimizeToTray := false |}.

Definition relocatedOutside : Outside :=
  {| APP_RELATIVE_PATH := Some "../web"; useSystemMenuBar := false;
     shouldMinimizeToTray := false |}.

(** The variable leads above the root of the file system. *)
Definition climbingOutside : Outside :=
  {| APP_RELATIVE_PATH := Some "../../../../../x"; useSystemMenuBar := false;
     shouldMinimizeToTray := false |}.

Abbreviation start h :=
  (initializeApplication (W:=FlagWindow) Path.join h plainOutside).

Abbreviation play h events := (run Path.join h events (start h)).

Definition hiddenWindow : FlagWindow :=
  {| fw_visible := false; fw_minimized := false; fw_focused := false;
     fw_url := Some "/home/u/.config/sn/index.html" |}.

End Scenarios.

(** ** Facts about runs of the coordinator *)

Module Lifecycle.
Import JSString IndexBuilder Application.
Local Open Scope list_scope.

Create HintDb lifecycle.

#[local] Arguments buildIndexFile : simpl never.

(** [p] appears in [l] in order, not necessarily side by side. *)
Inductive Subseq {A : Type} : list A -> list A -> Prop :=
| Subseq_nil l : Subseq [] l
| Subseq_skip p x l : Subseq p l -> Subseq p (x :: l)
| Subseq_take p x l : Subseq p l -> Subseq (x :: p) (x :: l).

#[export] Hint Constructors Subseq : lifecycle.

Section Runs.

Context {W : Type} {BW : BrowserWindow W}.
Variable path_join : list string -> string.
Variable host : Host.
Variable o0 : Outside.

Local Abbreviation step := (step path_join host).
Local Abbreviation run := (run path_join host).
Local Abbreviation boot := (initializeApplication (W:=W) path_join host o0).

(** [startUrl] and [webRoot] as [initializeApplication] computes them. *)
Definition startUrl0 : string := path_join [userData host; "index.html"].

Definition webRoot0 : string :=
  match APP_RELATIVE_PATH o0 with
  | Some rel => path_join [dirname host; rel]
  | None => dirname host
  end.

(** How many times the blocking dialog was shown. *)
Fixpoint dialogs (l : list (Obs W)) : nat :=
  match l with
  | [] => 0
  | Did (ShowMessageBoxSync _) :: l' => S (dialogs l')
  | _ :: l' => dialogs l'
  end.

Definition NoWrites (l : list (Obs W)) : Prop :=
  forall p c, ~ In (Did (FsWriteFile p c)) l.

Definition content (h : string) : string :=
  buildIndexFile (index host) h webRoot0.

(** The fields of [AppState] that are never assigned after start-up. *)
Definition Static (w : World W) : Prop :=
  startUrl (state w) = startUrl0 /\
  webRoot (state w) = webRoot0 /\
  isPrimaryInstance (state w) = lockGranted host /\
  extensionsServerAddress (state w) = AddressPromise.

(** Where [initializeExtensionsServer] stands, read off its promises. *)
Definition Phase (w : World W) : Prop :=
  match hostName w, writeFile w, address w with
  | Pending, None, Pending =>
      document w = Untouched /\ NoWrites (trace w)
  | Rejected e, None, Rejected e' =>
      e = e' /\ document w = Untouched /\ NoWrites (trace w)
  | Fulfilled h, Some Pending, Pending =>
      document w = BeingWritten (content h) /\
      Subseq [Did (FsWriteFile startUrl0 (content h));
              Occurred (ServerStarted h)] (trace w)
  | Fulfilled h, Some (Fulfilled _), Fulfilled h' =>
      h = h' /\ document w = Written (content h) /\
      Subseq [Occurred WriteFileDone;
              Did (FsWriteFile startUrl0 (content h));
              Occurred (ServerStarted h)] (trace w)
  | Fulfilled h, Some (Rejected e), Rejected e' =>
      e = e' /\ document w = WriteBroken
  | _, _, _ => False
  end.

Definition registrations : list Effect :=
  [IpcMainOn DisplayAppMenu; IpcMainOn InitialDataLoaded;
   IpcMainOn MajorDataChange; IpcMainHandle ExtensionsServerAddress;
   IpcMainHandle UseSystemMenuBar; IpcMainHandle WebRoot].

Definition Registered (l : list (Obs W)) : Prop :=
  Forall (fun eff => In (Did eff) l) registrations.

(** Where [finishApplicationInitialization] stands. *)
Definition Finishing (w : World W) : Prop :=
  match finish w with
  | None =>
      ipcHandlers w = false /\ windowState (state w) = None /\
      ~ In (Did CreateWindowState) (trace w)
  | Some Pending =>
      address w = Pending /\ ipcHandlers w = true /\ Registered (trace w)
  | Some (Fulfilled _) =>
      (exists h, address w = Fulfilled h) /\ ipcHandlers w = true
  | Some (Rejected e) =>
      address w = Rejected e /\ ipcHandlers w = true
  end.

(** What has happened before the window is told to load [u]. *)
Definition ReadyToLoad (u : string) (earlier : list (Obs W)) : Prop :=
  u = startUrl0 /\
  (exists h,
      Subseq [Occurred WriteFileDone;
              Did (FsWriteFile startUrl0 (content h));
              Occurred (ServerStarted h)] earlier) /\
  Registered earlier.

Definition LoadsAfter (l : list (Obs W)) : Prop :=
  forall later earlier u,
    l = later ++ Did (WindowLoadURL u) :: earlier -> ReadyToLoad u earlier.

Record Inv (w : World W) : Prop := {
  inv_static : Static w;
  inv_phase : Phase w;
  inv_dialogs :
    dialogs (trace w) = match address w with Rejected _ => 1 | _ => 0 end;
  inv_quit :
    forall e, address w = Rejected e ->
              In (Did AppQuit) (trace w) /\
              In (Did (ShowMessageBoxSync e)) (trace w);
  inv_finish : Finishing w;
  inv_secondary : lockGranted host = false -> finish w = None;
  inv_noload :
    forall u, In (Did (WindowLoadURL u)) (trace w) ->
              exists h, address w = Fulfilled h;
  inv_loads : LoadsAfter (trace w);
  inv_ready : readyEmitted w = false -> finish w = None
}.

(** Observations that the invariant does not speak about. *)
Definition Quiet (o : Obs W) : Prop :=
  match o with
  | Did (ShowMessageBoxSync _) | Did (FsWriteFile _ _)
  | Did (WindowLoadURL _) | Did CreateWindowState => False
  | _ => True
  end.

(** Assignments to [state] that leave the fixed fields alone and do not
    make a window appear where [finishApplicationInitialization] has not
    run. *)
Definition TameAt (st : AppState W) (f : AppState W -> AppState W) : Prop :=
  startUrl (f st) = startUrl st /\
  webRoot (f st) = webRoot st /\
  isPrimaryInstance (f st) = isPrimaryInstance st /\
  extensionsServerAddress (f st) = extensionsServerAddress st /\
  (windowState st = None -> windowState (f st) = None).

Definition Tame (f : AppState W -> AppState W) : Prop :=
  forall st, TameAt st f.

(** The reply of the [WebRoot] callback and the stored base path, as
    functions of the value of the environment variable. *)
Definition fileUrl (env : option string) : string :=
  match env with
  | Some rel => path_join ["file://"; dirname host; rel]
  | None => path_join ["file://"; dirname host]
  end.

Definition basePath (env : option string) : string :=
  match env with
  | Some rel => path_join [dirname host; rel]
  | None => dirname host
  end.

(** How many of the calls in [l] satisfy [f]. *)
Fixpoint times (f : Effect -> bool) (l : list (Obs W)) : nat :=
  match l with
  | [] => 0
  | Did eff :: l' => (if f eff then 1 else 0) + times f l'
  | Occurred _ :: l' => times f l'
  end.

Definition isCreateExtensionsServer (eff : Effect) : bool :=
  match eff with CreateExtensionsServer => true | _ => false end.

Definition isCreateWindowState (eff : Effect) : bool :=
  match eff with CreateWindowState => true | _ => false end.

Definition isFsWriteFile (eff : Effect) : bool :=
  match eff with FsWriteFile _ _ => true | _ => false end.

Definition isWindowLoadURL (eff : Effect) : bool :=
  match eff with WindowLoadURL _ => true | _ => false end.

Definition isCreateTrayIcon (eff : Effect) : bool :=
  match eff with CreateTrayIcon => true | _ => false end.

Definition IpcMessage_eqb (m m' : IpcMessage) : bool :=
  match m, m' with
  | DisplayAppMenu, DisplayAppMenu
  | InitialDataLoaded, InitialDataLoaded
  | MajorDataChange, MajorDataChange
  | ExtensionsServerAddress, ExtensionsServerAddress
  | UseSystemMenuBar, UseSystemMenuBar
  | WebRoot, WebRoot => true
  | _, _ => false
  end.

(** A registration on channel [m], by [ipcMain.on] or [ipcMain.handle]. *)
Definition isRegistration (m : IpcMessage) (eff : Effect) : bool :=
  match eff with
  | IpcMainOn m' | IpcMainHandle m' => IpcMessage_eqb m m'
  | _ => false
  end.

Definition started {A : Type} (p : option (Promise A)) : nat :=
  match p with None => 0 | Some _ => 1 end.

(** How often each collaborator has been called, read off the promises. *)
Record Counts (w : World W) : Prop := {
  cnt_server : times isCreateExtensionsServer (trace w) = 1;
  cnt_window : times isCreateWindowState (trace w) = started (finish w);
  cnt_registration :
    forall m, times (isRegistration m) (trace w) = started (finish w);
  cnt_tray : times isCreateTrayIcon (trace w) <= started (finish w);
  cnt_write : times isFsWriteFile (trace w) = started (writeFile w);
  cnt_load :
    times isWindowLoadURL (trace w)
    = match finish w with Some (Fulfilled _) => 1 | _ => 0 end
}.

(** Why each call was made. *)
Record Causes (w : World W) : Prop := {
  cause_write :
    forall p c, In (Did (FsWriteFile p c)) (trace w) ->
                p = startUrl0 /\
                exists h, hostName w = Fulfilled h /\ c = content h;
  cause_quit :
    In (Did AppQuit) (trace w) ->
    (exists e, address w = Rejected e) \/
    lockGranted host = false \/ isMac (platform host) = false;
  cause_tray :
    In (Did CreateTrayIcon) (trace w) ->
    isMac (platform host) = false /\ lockGranted host = true;
  cause_menu :
    In (Did PopupMenu) (trace w) ->
    In (Occurred (IpcSend DisplayAppMenu)) (trace w);
  cause_begin :
    In (Did BeginBackups) (trace w) ->
    In (Occurred (IpcSend InitialDataLoaded)) (trace w);
  cause_perform :
    In (Did PerformBackup) (trace w) ->
    In (Occurred (IpcSend MajorDataChange)) (trace w);
  cause_unhandled :
    forall e, In (Did (UnhandledRejection e)) (trace w) <->
              finish w = Some (Rejected e);
  cause_willQuit :
    willQuitApp (state w) = true <-> In (Occurred AppBeforeQuit) (trace w);
  cause_window :
    windowState (state w) = None <->
    finish w = None \/ In (Occurred WindowTeardown) (trace w);
  cause_teardown :
    In (Occurred WindowTeardown) (trace w) -> finish w <> None;
  cause_ready :
    readyEmitted w = true -> lockGranted host = true -> finish w <> None;
  cause_secondary :
    readyEmitted w = true -> lockGranted host = false ->
    In (Did AppQuit) (trace w);
  cause_emitted :
    readyEmitted w = true <-> In (Occurred AppReady) (trace w)
}.

(** The calls that the three [ipcMain.on] listeners make. *)
Definition isCollaboratorCall (eff : Effect) : bool :=
  match eff with
  | PopupMenu | BeginBackups | PerformBackup => true
  | _ => false
  end.

(** [eff] was called in direct answer to a request: what happened just
    before, [earlier] being newest first, is the receipt of a message on the
    channel whose listener makes this call, and the channel had been
    registered by then. *)
Definition Requested (eff : Effect) (earlier : list (Obs W)) : Prop :=
  exists m rest,
    ipcListener m = Some eff /\
    earlier = Occurred (IpcSend m) :: rest /\
    In (Did (IpcMainOn m)) rest.

Definition OnRequest (l : list (Obs W)) : Prop :=
  forall later earlier eff,
    isCollaboratorCall eff = true ->
    l = later ++ Did eff :: earlier -> Requested eff earlier.

Record Requests (w : World W) : Prop := {
  req_only : OnRequest (trace w);
  req_registered : ipcHandlers w = true -> Registered (trace w)
}.

Lemma Subseq_cons_inv {A : Type} (x : A) (p l : list A) :
  Subseq (x :: p) l -> exists l1 l2, l = l1 ++ x :: l2 /\ Subseq p l2.
Proof.
  induction l as [|y l IH]; intros H; inversion H; subst.
  - destruct (IH H2) as (l1 & l2 & -> & Hs). exists (y :: l1), l2. now split.
  - exists [], l. now split.
Qed.

Lemma run_app (evs evs' : list (Event W)) (w : World W) :
  run (evs ++ evs') w = run evs' (run evs w).
Proof. apply fold_left_app. Qed.

Lemma run_invariant (P : World W -> Prop) :
  (forall e w, P w -> P (step e w)) ->
  forall evs w, P w -> P (run evs w).
Proof.
  intros Hstep evs. induction evs as [|e evs IH]; intros w Hw; [exact Hw|].
  simpl. apply IH, Hstep, Hw.
Qed.

Lemma LoadsAfter_cons (o : Obs W) (l : list (Obs W)) :
  (forall u, o = Did (WindowLoadURL u) -> ReadyToLoad u l) ->
  LoadsAfter l -> LoadsAfter (o :: l).
Proof.
  intros Ho Hl later earlier u E. destruct later as [|x later]; simpl in E.
  - injection E as -> ->. now apply Ho.
  - injection E as _ E. exact (Hl _ _ _ E).
Qed.

Lemma Registered_cons (o : Obs W) (l : list (Obs W)) :
  Registered l -> Registered (o :: l).
Proof.
  unfold Registered. rewrite !Forall_forall. intros H x Hx. right. now apply H.
Qed.

Lemma NoWrites_cons (o : Obs W) (l : list (Obs W)) :
  (forall p c, o <> Did (FsWriteFile p c)) -> NoWrites l -> NoWrites (o :: l).
Proof.
  intros Ho Hl p c [E | Hin]; [exact (Ho _ _ E) | exact (Hl _ _ Hin)].
Qed.

Lemma Quiet_dialogs (o : Obs W) (l : list (Obs W)) :
  Quiet o -> dialogs (o :: l) = dialogs l.
Proof. destruct o as [e | []]; cbn; intros H; try reflexivity; contradiction. Qed.

Ltac quiet_neq :=
  unfold not; intros; subst; match goal with Q : Quiet _ |- _ => destruct Q end.

Lemma Phase_record (o : Obs W) (w : World W) :
  (forall p c, o <> Did (FsWriteFile p c)) -> Phase w -> Phase (record o w).
Proof.
  intros Ho. unfold Phase. cbn.
  destruct (hostName w), (writeFile w) as [[]|], (address w);
    try exact (fun H => H); intuition auto using NoWrites_cons with lifecycle.
Qed.

Lemma Inv_record (o : Obs W) (w : World W) : Quiet o -> Inv w -> Inv (record o w).
Proof.
  intros Q [Hs Hp Hd Hq Hf Hsec Hnl Hl Hr]. constructor.
  - exact Hs.
  - apply Phase_record; [quiet_neq | exact Hp].
  - cbn [trace record address]. now rewrite Quiet_dialogs.
  - intros e He. destruct (Hq e He). split; right; assumption.
  - unfold Finishing in *. cbn.
    destruct (finish w) as [[]|]; intuition auto using Registered_cons.
    subst o. exact Q.
  - exact Hsec.
  - intros u [E | Hin]; [subst o; contradiction | exact (Hnl u Hin)].
  - apply LoadsAfter_cons; [quiet_neq | exact Hl].
  - exact Hr.
Qed.

Lemma Inv_emit (eff : Effect) (w : World W) :
  Quiet (Did eff) -> Inv w -> Inv (emit eff w).
Proof. apply Inv_record. Qed.

Lemma Inv_set_state (f : AppState W -> AppState W) (w : World W) :
  TameAt (state w) f -> Inv w -> Inv (set_state f w).
Proof.
  intros (T1 & T2 & T3 & T4 & T5) [Hs Hp Hd Hq Hf Hsec Hnl Hl Hr].
  constructor; try assumption.
  - unfold Static in *. cbn. rewrite T1, T2, T3, T4. exact Hs.
  - unfold Finishing in *. cbn. destruct (finish w) as [[]|]; intuition.
Qed.

Lemma Tame_on_window (g : W -> W) :
  Tame (fun st => with_windowState (option_map g (windowState st)) st).
Proof. intros st. cbn. repeat split. now intros ->. Qed.

Lemma Tame_willQuitApp (b : bool) : Tame (with_willQuitApp b).
Proof. intros st. cbn. repeat split. auto. Qed.

Lemma Tame_teardown : Tame (with_windowState None).
Proof. intros st. cbn. repeat split. Qed.

Lemma Inv_on_window (g : W -> W) (w : World W) : Inv w -> Inv (on_window g w).
Proof. apply Inv_set_state, Tame_on_window. Qed.

Lemma Inv_tame (f : AppState W -> AppState W) (w : World W) :
  Tame f -> Inv w -> Inv (set_state f w).
Proof. intros T. apply Inv_set_state, T. Qed.

Lemma Inv_set_outside (o : Outside) (w : World W) : Inv w -> Inv (set_outside o w).
Proof. intros [Hs Hp Hd Hq Hf Hsec Hnl Hl Hr]. constructor; assumption. Qed.

Ltac inv_frame :=
  repeat first
    [ assumption
    | apply Inv_emit; [exact Logic.I |]
    | apply Inv_record; [exact Logic.I |]
    | apply Inv_on_window
    | apply Inv_set_outside
    | apply Inv_tame; [first [apply Tame_willQuitApp | apply Tame_teardown] |] ].

Lemma Inv_blank (w : World W) :
  state w = initialState path_join host o0 ->
  hostName w = Pending -> writeFile w = None -> address w = Pending ->
  finish w = None -> ipcHandlers w = false -> document w = Untouched ->
  trace w = [] -> Inv w.
Proof.
  intros Hst Hhn Hwf Had Hfi Hipc Hdoc Htr.
  constructor; unfold Static, Phase, Finishing;
    rewrite ?Hst, ?Hhn, ?Hwf, ?Had, ?Hfi, ?Hipc, ?Hdoc, ?Htr.
  - repeat split.
  - split; [reflexivity | intros p c []].
  - reflexivity.
  - discriminate.
  - repeat split. intros [].
  - reflexivity.
  - intros u [].
  - intros [|x later] earlier u E; discriminate E.
  - reflexivity.
Qed.

Lemma Inv_boot : Inv boot.
Proof.
  unfold initializeApplication, seq_action.
  destruct (dev host); inv_frame; now apply Inv_blank.
Qed.

Lemma Inv_onSecondInstance (w : World W) : Inv w -> Inv (onSecondInstance w).
Proof.
  intros HI. unfold onSecondInstance, seq_action.
  destruct (windowState (state w)) as [window|]; [|exact HI].
  set (w1 := if negb (isVisible window) then _ else _).
  assert (I1 : Inv w1).
  { subst w1. destruct (negb (isVisible window)); inv_frame. }
  set (w2 := match windowState (state w1) with Some _ => _ | None => _ end).
  assert (I2 : Inv w2).
  { subst w2. destruct (windowState (state w1)) as [window1|]; [|exact I1].
    destruct (isMinimized window1); inv_frame. }
  inv_frame.
Qed.

Lemma Inv_onActivate (w : World W) : Inv w -> Inv (onActivate w).
Proof.
  intros HI. unfold onActivate, seq_action.
  destruct (windowState (state w)); inv_frame.
Qed.

Lemma Inv_onWindowAllClosed (w : World W) : Inv w -> Inv (onWindowAllClosed host w).
Proof.
  intros HI. unfold onWindowAllClosed.
  destruct (negb (isMac (platform host))); inv_frame.
Qed.

Ltac crush :=
  repeat match goal with
  | |- _ /\ _ => split
  | |- forall _, _ => intro
  | H : _ /\ _ |- _ => destruct H
  | H : _ \/ _ |- _ => destruct H
  | H : exists _, _ |- _ => destruct H
  | H : False |- _ => destruct H
  | H : Did _ = Did _ |- _ => first [discriminate H | injection H as H]
  | H : Occurred _ = Did _ |- _ => discriminate H
  | H : @Pending _ = _ |- _ => discriminate H
  | H : Fulfilled _ = _ |- _ => first [discriminate H | injection H as H]
  | H : Rejected _ = _ |- _ => first [discriminate H | injection H as H]
  | H : Some _ = _ |- _ => first [discriminate H | injection H as H]
  | H : None = Some _ |- _ => discriminate H
  | H : true = false |- _ => discriminate H
  | H : false = true |- _ => discriminate H
  | H : ?a = ?b -> _, H' : ?a = ?b |- _ => specialize (H H')
  | H : forall e, Rejected ?r = Rejected e -> _ |- _ => specialize (H _ eq_refl)
  | H : forall u, In (Did (WindowLoadURL u)) ?l -> _,
    H' : In (Did (WindowLoadURL _)) ?l |- _ => specialize (H _ H')
  | |- LoadsAfter (_ :: _) => apply LoadsAfter_cons
  | |- NoWrites (_ :: _) => apply NoWrites_cons
  | |- ReadyToLoad _ _ => unfold ReadyToLoad
  | |- exists _, Subseq _ _ => eexists
  | |- ~ _ => intro
  end; subst; cbn [In] in *.

Ltac open_world w :=
  destruct w as [st hn wf ad fi ipc re out doc tr];
  unfold Static, Phase, Finishing in *;
  cbn [hostName writeFile address finish trace state document ipcHandlers
       readyEmitted outside] in *.

Ltac shut_world :=
  constructor; unfold Static, Phase, Finishing; cbn.

Ltac fold_content :=
  repeat match goal with
         | |- context [buildIndexFile _ ?h webRoot0] => fold (content h)
         end.

Ltac subseq_tac :=
  repeat first
    [ eassumption | apply Subseq_nil | apply Subseq_take | apply Subseq_skip ].

Ltac in_tac := cbn [In]; repeat first [left; reflexivity | right]; eauto.

Ltac registered_tac :=
  first
    [ repeat apply Registered_cons; assumption
    | unfold Registered, registrations;
      repeat first [apply Forall_nil | apply Forall_cons]; in_tac ].

Ltac wrap_up :=
  try congruence;
  try solve [subseq_tac];
  try solve [registered_tac];
  try solve [in_tac];
  eauto 7 with lifecycle.

Lemma Inv_promise_event (e : Event W) (w : World W) :
  match e with
  | ServerStarted _ | ServerFailed _ | WriteFileDone | WriteFileFailed _ => True
  | _ => False
  end ->
  enabled e w = true -> Inv w -> Inv (handle path_join host e (record (Occurred e) w)).
Proof.
  intros He En [Hs Hp Hd Hq Hf Hsec Hnl Hl Hr].
  open_world w. destruct Hs as (S1 & S2 & S3 & S4).
  destruct e; try contradiction; cbn in En;
    destruct hn, wf as [[]|], ad; try contradiction;
    try discriminate En;
    destruct fi as [[]|]; crush.
  all: shut_world; rewrite ?S1, ?S2; fold_content.
  all: try solve [crush; wrap_up].
Qed.

Lemma Inv_ready (w : World W) :
  readyEmitted w = false -> Inv w ->
  Inv (handle path_join host AppReady (record (Occurred AppReady) w)).
Proof.
  intros En [Hs Hp Hd Hq Hf Hsec Hnl Hl Hr].
  open_world w. destruct Hs as (S1 & S2 & S3 & S4).
  cbn in En. subst. specialize (Hr eq_refl). subst.
  unfold handle, seq_action, onReady, set_readyEmitted, record. cbn.
  rewrite S3. destruct (lockGranted host) eqn:L; cbn.
  - unfold finishApplicationInitialization, seq_action. cbn.
    destruct ((isWindows (platform host) || isLinux (platform host))
              && shouldMinimizeToTray out); cbn;
    destruct hn, wf as [[]|], ad; try contradiction; crush.
    all: shut_world; rewrite ?S1, ?S2; fold_content.
    all: try solve [crush; wrap_up].
  - destruct hn, wf as [[]|], ad; try contradiction; crush.
    all: shut_world.
    all: try solve [crush; wrap_up].
Qed.

Lemma Inv_step (e : Event W) (w : World W) : Inv w -> Inv (step e w).
Proof.
  intros HI. unfold step. destruct (enabled e w) eqn:En; [|exact HI].
  destruct e;
    try (apply Inv_promise_event; [exact Logic.I | exact En | exact HI]).
  - apply Inv_ready; [|exact HI]. cbn in En. now destruct (readyEmitted w).
  - apply Inv_onSecondInstance. inv_frame.
  - apply Inv_onWindowAllClosed. inv_frame.
  - unfold handle, onBeforeQuit. inv_frame.
  - apply Inv_onActivate. inv_frame.
  - cbn [handle record ipcHandlers].
    destruct (ipcHandlers w); [|inv_frame].
    destruct m; cbn [ipcListener]; inv_frame.
  - cbn [handle record ipcHandlers].
    destruct (ipcHandlers w); [|inv_frame].
    destruct m; cbn [ipcHandler]; unfold seq_action; inv_frame.
  - unfold handle. inv_frame.
  - unfold handle. apply Inv_set_state; [|inv_frame].
    cbn in En |- *. repeat split. intros E. rewrite E in En. discriminate.
  - unfold handle. inv_frame.
Qed.

(** Every state the process can reach satisfies the invariant. *)
Lemma Inv_run (evs : list (Event W)) : Inv (run evs boot).
Proof. apply run_invariant; [exact Inv_step | exact Inv_boot]. Qed.

(** *** Promises settle once *)

Ltac split_handlers :=
  unfold handle, onReady, finishApplicationInitialization, registerIpcEventListeners,
    onSecondInstance, onWindowAllClosed, onBeforeQuit, onActivate,
    resumeAfterHostName, resumeAfterWriteFile, settleAddress, catchCallback,
    resumeFinish, seq_action;
  cbn;
  repeat match goal with
         | |- context [if ?x then _ else _] => destruct x eqn:?; cbn
         | |- context [match ?x with _ => _ end] => destruct x eqn:?; cbn
         end.

Lemma hostName_step (e : Event W) (w : World W) :
  hostName (step e w) = hostName w \/ hostName w = Pending.
Proof.
  unfold step. destruct (enabled e w) eqn:En; [|now left].
  destruct e; cbn in En;
    try (destruct (hostName w); try discriminate En; now right);
    left; split_handlers; congruence.
Qed.

Lemma hostName_stable (evs : list (Event W)) (w : World W) (e : string) :
  hostName w = Rejected e -> hostName (run evs w) = Rejected e.
Proof.
  apply (run_invariant (fun w => hostName w = Rejected e)).
  intros ev w' H. destruct (hostName_step ev w') as [E | E]; congruence.
Qed.

Lemma address_step (e : Event W) (w : World W) :
  Inv w -> address (step e w) = address w \/ address w = Pending.
Proof.
  intros [_ Hp _ _ _ _ _ _ _]. unfold step.
  destruct (enabled e w) eqn:En; [|now left].
  unfold Phase in Hp.
  destruct e; cbn in En;
    try (destruct (hostName w), (writeFile w) as [[]|], (address w);
         try contradiction; try discriminate En; now right);
    left; split_handlers; congruence.
Qed.

Lemma address_stable (evs evs' : list (Event W)) (e : string) :
  address (run evs boot) = Rejected e ->
  address (run (evs ++ evs') boot) = Rejected e.
Proof.
  intros H. rewrite run_app.
  assert (G : Inv (run evs' (run evs boot)) /\
              address (run evs' (run evs boot)) = Rejected e).
  { apply (run_invariant (fun w => Inv w /\ address w = Rejected e)).
    - intros ev w [HI Ha]. split; [now apply Inv_step|].
      destruct (address_step ev w HI) as [E | E]; congruence.
    - split; [apply Inv_run | exact H]. }
  exact (proj2 G).
Qed.

(** *** Bootstrap failure *)

(** C1, as amended.  Once the promise [state.extensionsServerAddress] is
    rejected, then for the rest of the run the blocking dialog has been shown
    exactly once, with the error as its message, [app.quit()] has been
    called, and the window is never told to load the start document. *)
Theorem rejected_bootstrap_is_fatal (evs evs' : list (Event W)) (e : string) :
  address (run evs boot) = Rejected e ->
  dialogs (trace (run (evs ++ evs') boot)) = 1 /\
  In (Did (ShowMessageBoxSync e)) (trace (run (evs ++ evs') boot)) /\
  In (Did AppQuit) (trace (run (evs ++ evs') boot)) /\
  (forall u, ~ In (Did (WindowLoadURL u)) (trace (run (evs ++ evs') boot))).
Proof.
  intros H. pose proof (address_stable evs evs' e H) as Ha.
  destruct (Inv_run (evs ++ evs')) as [_ _ Hd Hq _ _ Hnl _ _].
  rewrite Ha in Hd. destruct (Hq e Ha) as [Hquit Hshown].
  repeat split; try assumption.
  intros u Hin. destruct (Hnl u Hin) as [h Hh]. congruence.
Qed.

(** *** The losing instance *)

(** The extensions server is started by [initializeApplication] whether or
    not the single-instance lock was obtained. *)
Lemma server_started_at_boot : In (Did CreateExtensionsServer) (trace boot).
Proof.
  unfold initializeApplication, seq_action. destruct (dev host); cbn; tauto.
Qed.

(** Without the lock, no window is created and no handler is registered,
    whatever happens. *)
Lemma losing_instance_no_window (evs : list (Event W)) :
  lockGranted host = false ->
  windowState (state (run evs boot)) = None /\
  ipcHandlers (run evs boot) = false /\
  ~ In (Did CreateWindowState) (trace (run evs boot)).
Proof.
  intros L. destruct (Inv_run evs) as [_ _ _ _ Hf Hsec _ _ _].
  unfold Finishing in Hf. rewrite (Hsec L) in Hf. tauto.
Qed.

(** *** The start document *)

(** C10.  If [createExtensionsServer()] rejects, then for the rest of the
    run [fs.promises.writeFile] is never called and the start document on
    disk is as the previous start left it. *)
Theorem no_write_after_server_failure (evs evs' : list (Event W)) (e : string) :
  hostName (run evs boot) = Rejected e ->
  (forall p c, ~ In (Did (FsWriteFile p c)) (trace (run (evs ++ evs') boot))) /\
  document (run (evs ++ evs') boot) = Untouched.
Proof.
  intros H.
  assert (Hh : hostName (run (evs ++ evs') boot) = Rejected e).
  { rewrite run_app. now apply hostName_stable. }
  destruct (Inv_run (evs ++ evs')) as [_ Hp _ _ _ _ _ _ _].
  unfold Phase in Hp. rewrite Hh in Hp.
  destruct (writeFile (run (evs ++ evs') boot)); [contradiction|].
  destruct (address (run (evs ++ evs') boot)); try contradiction.
  destruct Hp as (_ & Hdoc & Hnw). split; [exact Hnw | exact Hdoc].
Qed.

(** C3.  Whenever the window is told to load a URL, that URL is the path of
    the start document, and before the call, in this order, the extensions
    server reported its host name, [writeFile] was called on that path with
    the document built for that host name, and the write completed; the six
    IPC registrations were made before the call as well. *)
Theorem load_follows_bootstrap (evs : list (Event W))
    (before after : list (Obs W)) (u : string) :
  history (run evs boot) = before ++ Did (WindowLoadURL u) :: after ->
  u = startUrl0 /\
  (exists h l1 l2 l3 l4,
      before = l1 ++ Occurred (ServerStarted h)
                  :: l2 ++ Did (FsWriteFile startUrl0
                                  (buildIndexFile (index host) h webRoot0))
                  :: l3 ++ Occurred WriteFileDone :: l4) /\
  Forall (fun eff => In (Did eff) before) registrations.
Proof.
  intros H. unfold history in H.
  apply (f_equal (@rev _)) in H. rewrite rev_involutive in H.
  rewrite rev_app_distr in H. cbn [rev] in H. rewrite <- app_assoc in H.
  cbn [app] in H.
  destruct (Inv_run evs) as [_ _ _ _ _ _ _ Hl _].
  destruct (Hl _ _ _ H) as (Hu & [h Hs] & Hreg).
  split; [exact Hu|]. split.
  - apply Subseq_cons_inv in Hs. destruct Hs as (e1 & r1 & E1 & Hs).
    apply Subseq_cons_inv in Hs. destruct Hs as (e2 & r2 & E2 & Hs).
    apply Subseq_cons_inv in Hs. destruct Hs as (e3 & r3 & E3 & _).
    exists h, (rev r3), (rev e3), (rev e2), (rev e1).
    rewrite <- (rev_involutive before), E1, E2, E3.
    repeat (rewrite ?rev_app_distr; cbn [rev app]; rewrite <- ?app_assoc).
    reflexivity.
  - unfold Registered in Hreg. rewrite Forall_forall in *.
    intros eff Heff. apply in_rev. now apply Hreg.
Qed.
Lemma losing_instance_quits_on_ready (w : World W) :
  isPrimaryInstance (state w) = false -> readyEmitted w = false ->
  trace (step AppReady w) =
    Did AppQuit
    :: Did (ConsoleWarn "Quiting app and focusing existing instance.")
    :: Occurred AppReady :: trace w.
Proof.
  intros Hp Hr. unfold step. cbn [enabled]. rewrite Hr. cbn [negb].
  unfold handle, onReady, seq_action. cbn. rewrite Hp. reflexivity.
Qed.

(** *** Lifecycle events *)

(** C6.  The [second-instance] listener: with a window, [show()] is called
    when [isVisible()] is false, then [restore()] when [isMinimized()] is
    true, then [focus()] in every case, and nothing else is done; without a
    window nothing happens at all. *)
Theorem second_instance_focuses_window (w : World W) :
  handle path_join host AppSecondInstance = onSecondInstance /\
  match windowState (state w) with
  | None => onSecondInstance w = w
  | Some window =>
      let window1 := if isVisible window then window else show window in
      let window2 := if isMinimized window1 then restore window1 else window1 in
      windowState (state (onSecondInstance w)) = Some (focus window2) /\
      trace (onSecondInstance w) =
        Did WindowFocus
        :: (if isMinimized window1 then [Did WindowRestore] else [])
        ++ (if isVisible window then [] else [Did WindowShow])
        ++ trace w
  end.
Proof.
  split; [reflexivity|].
  unfold onSecondInstance, seq_action.
  destruct (windowState (state w)) as [window|] eqn:Ews; [|reflexivity].
  destruct (isVisible window) eqn:Ev; cbn.
  - rewrite Ews. destruct (isMinimized window) eqn:Em; cbn; rewrite ?Ews; cbn;
      split; reflexivity.
  - rewrite Ews. cbn. destruct (isMinimized (show window)) eqn:Em; cbn;
      rewrite ?Ews; cbn; split; reflexivity.
Qed.

(** C7.  The [window-all-closed] listener calls [app.quit()] on every
    platform but macOS.  On macOS it does nothing: no call is made and the
    state, [willQuitApp] and [windowState] included, stays as it is, also
    when [before-quit] was delivered just before. *)
Theorem window_all_closed_quits_unless_mac (w : World W) :
  if isMac (platform host) then
    onWindowAllClosed host w = w /\
    state (step AppWindowAllClosed w) = state w /\
    trace (step AppWindowAllClosed w) = Occurred AppWindowAllClosed :: trace w /\
    trace (run [AppBeforeQuit; AppWindowAllClosed] w)
    = Occurred AppWindowAllClosed :: Occurred AppBeforeQuit :: trace w /\
    windowState (state (run [AppBeforeQuit; AppWindowAllClosed] w))
    = windowState (state w)
  else
    onWindowAllClosed host w = emit AppQuit w /\
    trace (step AppWindowAllClosed w)
    = Did AppQuit :: Occurred AppWindowAllClosed :: trace w.
Proof.
  unfold step, run, onWindowAllClosed. cbn.
  unfold onWindowAllClosed, onBeforeQuit.
  destruct (isMac (platform host)); cbn; repeat split; reflexivity.
Qed.

(** The reply to [get-web-root] is computed from the environment as it is
    when the request is handled; the stored base path is the one computed
    from the environment as it was at start-up. *)
Lemma web_root_reply_reads_environment (evs : list (Event W)) :
  ipcHandler path_join host WebRoot (run evs boot)
  = Some (Normal (ReplyString
                    (fileUrl (APP_RELATIVE_PATH (outside (run evs boot)))))) /\
  webRoot (state (run evs boot)) = basePath (APP_RELATIVE_PATH o0).
Proof.
  split; [reflexivity|].
  destruct (Inv_run evs) as [(_ & Hw & _) _ _ _ _ _ _ _ _]. exact Hw.
Qed.

(** C8.  In every state the process can reach, each of the three
    request/reply callbacks returns and does not throw.  The address
    callback returns the promise object held in
    [state.extensionsServerAddress], settled or not: the requester gets
    nothing while it is pending, and a value it gets from it is the host
    name the server reported, after the start document was written. *)
Theorem ipc_handlers_return (evs : list (Event W)) :
  (forall m, m = ExtensionsServerAddress \/ m = UseSystemMenuBar \/ m = WebRoot ->
             exists r, ipcHandler path_join host m (run evs boot) = Some (Normal r)) /\
  ipcHandler path_join host ExtensionsServerAddress (run evs boot)
  = Some (Normal (ReplyPromise AddressPromise)) /\
  (address (run evs boot) = Pending ->
   received (run evs boot) (ReplyPromise AddressPromise) = None) /\
  (forall evs' v,
      received (run (evs ++ evs') boot) (ReplyPromise AddressPromise)
      = Some (Normal v) ->
      exists h, v = ReplyString h /\
                hostName (run (evs ++ evs') boot) = Fulfilled h /\
                document (run (evs ++ evs') boot) = Written (content h)).
Proof.
  destruct (Inv_run evs) as [(_ & _ & _ & Hp) _ _ _ _ _ _ _ _].
  repeat split.
  - intros m [-> | [-> | ->]]; eexists; reflexivity.
  - cbn. now rewrite Hp.
  - intros Ha. cbn. now rewrite Ha.
  - intros evs' v Hv. cbn in Hv.
    destruct (Inv_run (evs ++ evs')) as [_ Hph _ _ _ _ _ _ _].
    unfold Phase in Hph.
    destruct (address (run (evs ++ evs') boot)) as [|h|] eqn:Ea; try discriminate.
    injection Hv as <-. exists h.
    destruct (hostName (run (evs ++ evs') boot)); try contradiction;
      destruct (writeFile (run (evs ++ evs') boot)) as [[]|]; try contradiction.
    destruct Hph as (-> & Hdoc & _). auto.
Qed.

(** *** How often and why the collaborators are called *)

Ltac split_goal :=
  repeat match goal with
         | |- context [if ?x then _ else _] => destruct x eqn:?; cbn
         | |- context [match ?x with _ => _ end] => destruct x eqn:?; cbn
         end.

Ltac unfold_handlers :=
  unfold handle, onReady, finishApplicationInitialization,
    registerIpcEventListeners, onSecondInstance, onWindowAllClosed,
    onBeforeQuit, onActivate, resumeAfterHostName, resumeAfterWriteFile,
    settleAddress, catchCallback, resumeFinish, on_window, seq_action.

Lemma Counts_boot : Counts boot.
Proof.
  unfold initializeApplication, seq_action.
  destruct (dev host); constructor; cbn; try reflexivity; try lia;
    intros []; reflexivity.
Qed.

Lemma Counts_step (e : Event W) (w : World W) :
  Inv w -> Counts w -> Counts (step e w).
Proof.
  intros HI HC. unfold step. destruct (enabled e w) eqn:En; [|exact HC].
  destruct HI as [_ Hp _ _ Hf _ _ _ Hr].
  destruct HC as [C1 C2 C3 C4 C5 C6].
  destruct w as [[sto su wr esa prim wq ws] hn wf ad fi ipc re out doc tr].
  unfold Phase, Finishing in *.
  cbn [hostName writeFile address finish trace state document ipcHandlers
       readyEmitted outside windowState] in *.
  destruct e; cbn in En;
    try (destruct re; [discriminate En|]; specialize (Hr eq_refl); subst fi);
    destruct hn, wf as [[]|], ad; try contradiction; try discriminate En;
    try destruct fi as [[]|];
    try match goal with m : IpcMessage |- _ => destruct m end;
    unfold_handlers; cbn; split_goal.
  all: constructor; try assumption; cbn in *; try lia.
  all: try (intros m; specialize (C3 m); destruct m; cbn in *; lia).
Qed.


Ltac causes :=
  repeat match goal with
  | |- _ /\ _ => split
  | |- _ <-> _ => split
  | |- forall _, _ => intro
  | |- ~ _ => intro
  | H : _ /\ _ |- _ => destruct H
  | H : _ \/ _ |- _ => destruct H
  | H : exists _, _ |- _ => destruct H
  | H : False |- _ => destruct H
  | H : _ <-> _ |- _ => destruct H
  | H : forall e, _ <-> _ |- _ =>
      pose proof (fun e => proj1 (H e)); pose proof (fun e => proj2 (H e));
      clear H
  | H : ?x <> ?x |- _ => destruct (H eq_refl)
  | H : negb _ = true |- _ => apply negb_true_iff in H
  | H : negb _ = false |- _ => apply negb_false_iff in H
  | H : ?P -> ?Q, H' : ?P |- _ => specialize (H H')
  | H : _ \/ ?B -> ?C, H' : ?B |- _ => specialize (H (or_intror H'))
  | H : forall p c, In (Did (FsWriteFile p c)) ?l -> _,
    H' : In (Did (FsWriteFile _ _)) ?l |- _ => specialize (H _ _ H')
  | H : forall e, In (Did (UnhandledRejection e)) ?l -> _,
    H' : In (Did (UnhandledRejection _)) ?l |- _ => specialize (H _ H')
  | H : Did _ = Did _ |- _ => first [discriminate H | inversion H; subst; clear H]
  | H : Occurred _ = Did _ |- _ => discriminate H
  | H : Did _ = Occurred _ |- _ => discriminate H
  | H : Occurred _ = Occurred _ |- _ =>
      first [discriminate H | inversion H; subst; clear H]
  | H : @Pending _ = _ |- _ => discriminate H
  | H : Fulfilled _ = _ |- _ => first [discriminate H | inversion H; subst; clear H]
  | H : Rejected _ = _ |- _ => first [discriminate H | inversion H; subst; clear H]
  | H : Some _ = _ |- _ => first [discriminate H | inversion H; subst; clear H]
  | H : None = Some _ |- _ => discriminate H
  | H : true = false |- _ => discriminate H
  | H : false = true |- _ => discriminate H
  end.

Ltac settle :=
  cbn [In] in *;
  try congruence;
  first [ solve [eauto 3]
        | solve [repeat first [left; reflexivity | right]; eauto 3]
        | solve [left; eauto 3]
        | solve [right; left; eauto 3]
        | solve [right; right; eauto 3]
        | solve [destruct (platform host); cbn in *;
                 first [discriminate | congruence | eauto 3
                       | right; right; reflexivity]] ].

Lemma Causes_boot : Causes boot.
Proof.
  unfold initializeApplication, seq_action.
  destruct (dev host); constructor; cbn; causes; try discriminate; auto.
Qed.

Lemma Causes_step (e : Event W) (w : World W) :
  Inv w -> Causes w -> Causes (step e w).
Proof.
  intros HI HC. unfold step. destruct (enabled e w) eqn:En; [|exact HC].
  destruct HI as [Hs Hp _ _ Hf _ _ _ Hr].
  destruct HC as [C1 C2 C3 C4 C5 C6 C7 C8 C9 C10 C11 C12 C13].
  destruct w as [[sto su wr esa prim wq ws] hn wf ad fi ipc re out doc tr].
  unfold Static, Phase, Finishing in *.
  cbn [hostName writeFile address finish trace state document ipcHandlers
       readyEmitted outside windowState willQuitApp startUrl webRoot
       isPrimaryInstance extensionsServerAddress] in *.
  destruct Hs as (S1 & S2 & S3 & S4). subst su wr prim esa.
  assert (Hws : fi = None -> ws = None).
  { intros ->. tauto. }
  clear Hf.
  destruct e; cbn in En;
    first
      [ (* the events that settle a promise, and [ready] *)
        match goal with
        | |- Causes (handle _ _ AppReady _) => idtac
        | |- Causes (handle _ _ (ServerStarted _) _) => idtac
        | |- Causes (handle _ _ (ServerFailed _) _) => idtac
        | |- Causes (handle _ _ WriteFileDone _) => idtac
        | |- Causes (handle _ _ (WriteFileFailed _) _) => idtac
        end;
        try (destruct re; [discriminate En|]; specialize (Hr eq_refl); subst fi);
        destruct hn, wf as [[]|], ad; try contradiction; try discriminate En;
        try destruct fi as [[]|];
        try (rewrite Hws in * by reflexivity);
        destruct ws
      | clear Hp; destruct fi as [[]|];
        try (rewrite Hws in * by reflexivity);
        try destruct ws; try discriminate En;
        try match goal with m : IpcMessage |- _ => destruct m end ];
    clear Hws;
    unfold_handlers; cbn; split_goal.
  all: constructor; try assumption; cbn in *.
  all: solve [causes; settle].
Qed.

Lemma Ledger_run (evs : list (Event W)) :
  Inv (run evs boot) /\ Counts (run evs boot) /\ Causes (run evs boot).
Proof.
  apply (run_invariant (fun w => Inv w /\ Counts w /\ Causes w)).
  - intros e w (HI & HC & HK). split; [|split].
    + now apply Inv_step.
    + now apply Counts_step.
    + now apply Causes_step.
  - split; [|split]; [apply Inv_boot | apply Counts_boot | apply Causes_boot].
Qed.

Lemma times_In_CreateWindowState (l : list (Obs W)) :
  In (Did CreateWindowState) l <-> 1 <= times isCreateWindowState l.
Proof.
  induction l as [|o l IH]; cbn; [split; [tauto | lia]|].
  destruct o as [e | eff]; [split; [intros [E | H]; [discriminate | tauto] | tauto]|].
  destruct eff; cbn; rewrite <- ?IH;
    try (split; [intros [E | H]; [discriminate | tauto] | tauto]).
  split; [lia | auto].
Qed.

(** X1.  Whatever happens, [createExtensionsServer()] has been called
    exactly once. *)
Theorem extensions_server_started_once (evs : list (Event W)) :
  times isCreateExtensionsServer (trace (run evs boot)) = 1.
Proof. destruct (Ledger_run evs) as (_ & [H _ _ _ _ _] & _). exact H. Qed.

(** X2.  The window bundle is created at most once, and each of the six
    IPC channels is registered exactly as often: once when the handlers are
    in place, never before. *)
Theorem window_and_channels_set_up_once (evs : list (Event W)) (m : IpcMessage) :
  times isCreateWindowState (trace (run evs boot))
  = (if ipcHandlers (run evs boot) then 1 else 0) /\
  times (isRegistration m) (trace (run evs boot))
  = (if ipcHandlers (run evs boot) then 1 else 0).
Proof.
  destruct (Ledger_run evs) as ([_ _ _ _ Hf _ _ _ _] & [_ Hw Hr _ _ _] & _).
  rewrite Hw, (Hr m). unfold Finishing in Hf.
  destruct (finish (run evs boot)) as [[| |]|]; cbn;
    [ destruct Hf as (_ & -> & _) | destruct Hf as (_ & ->)
    | destruct Hf as (_ & ->) | destruct Hf as (-> & _) ]; auto.
Qed.

(** X3.  [fs.promises.writeFile] is called at most once; when it has been
    called, it was on [startUrl], with the document built from the host
    name the server reported and the stored base path. *)
Theorem start_document_written_once (evs : list (Event W)) (p c : string) :
  In (Did (FsWriteFile p c)) (trace (run evs boot)) ->
  times isFsWriteFile (trace (run evs boot)) = 1 /\
  p = startUrl0 /\
  exists h, hostName (run evs boot) = Fulfilled h /\
            c = buildIndexFile (index host) h webRoot0.
Proof.
  intros Hin.
  destruct (Ledger_run evs) as ([_ Hp _ _ _ _ _ _ _] & [_ _ _ _ Hw _] & [Hc _ _ _ _ _ _ _ _ _ _ _ _]).
  destruct (Hc p c Hin) as (-> & h & Hh & ->).
  repeat split; [|exists h; split; [exact Hh | reflexivity]].
  rewrite Hw. unfold Phase in Hp. rewrite Hh in Hp.
  destruct (writeFile (run evs boot)); [reflexivity | contradiction].
Qed.

(** X4.  The window is told to load a URL at most once. *)
Theorem window_loads_at_most_once (evs : list (Event W)) :
  times isWindowLoadURL (trace (run evs boot)) <= 1.
Proof.
  destruct (Ledger_run evs) as (_ & [_ _ _ _ _ H] & _). rewrite H.
  destruct (finish (run evs boot)) as [[]|]; lia.
Qed.


(** X6.  [willQuitApp] is true exactly when [before-quit] has been
    delivered: nothing else sets it and nothing resets it. *)
Theorem willQuitApp_iff_before_quit (evs : list (Event W)) :
  willQuitApp (state (run evs boot)) = true <->
  In (Occurred AppBeforeQuit) (trace (run evs boot)).
Proof.
  destruct (Ledger_run evs) as (_ & _ & [_ _ _ _ _ _ _ H _ _ _ _ _]). exact H.
Qed.

(** X7.  [state.windowState] is absent exactly when the window bundle has
    not been created yet or the window has called [teardown()]; no listener
    clears it. *)
Theorem window_handle_cleared_only_by_teardown (evs : list (Event W)) :
  windowState (state (run evs boot)) = None <->
  ~ In (Did CreateWindowState) (trace (run evs boot)) \/
  In (Occurred WindowTeardown) (trace (run evs boot)).
Proof.
  destruct (Ledger_run evs)
    as ([_ _ _ _ Hf _ _ _ _] & [_ Hw _ _ _ _] & [_ _ _ _ _ _ _ _ H _ _ _ _]).
  rewrite H, times_In_CreateWindowState, Hw.
  destruct (finish (run evs boot)) as [p|]; cbn.
  - split; (intros [E | T]; [|now right]); [discriminate | lia].
  - split; intros _; left; [lia | reflexivity].
Qed.

(** X8.  A tray icon is created at most once, only by a process that holds
    the lock, and never on macOS. *)
Theorem tray_icon_only_off_mac (evs : list (Event W)) :
  times isCreateTrayIcon (trace (run evs boot)) <= 1 /\
  (In (Did CreateTrayIcon) (trace (run evs boot)) ->
   isMac (platform host) = false /\ lockGranted host = true).
Proof.
  destruct (Ledger_run evs) as (_ & [_ _ _ Ht _ _] & [_ _ Hc _ _ _ _ _ _ _ _ _ _]).
  split; [|exact Hc].
  destruct (finish (run evs boot)); cbn in Ht; lia.
Qed.

Lemma OnRequest_cons (o : Obs W) (l : list (Obs W)) :
  match o with Did eff => isCollaboratorCall eff | Occurred _ => false end = false ->
  OnRequest l -> OnRequest (o :: l).
Proof.
  intros Ho Hl later earlier eff Hc Heq.
  destruct later as [|o' later]; cbn [app] in Heq.
  - injection Heq as -> _. congruence.
  - injection Heq as _ Heq. exact (Hl later earlier eff Hc Heq).
Qed.

Lemma OnRequest_call (m : IpcMessage) (eff : Effect) (l : list (Obs W)) :
  ipcListener m = Some eff -> In (Did (IpcMainOn m)) l ->
  OnRequest l -> OnRequest (Did eff :: Occurred (IpcSend m) :: l).
Proof.
  intros Hm Hin Hl later earlier eff' Hc Heq.
  destruct later as [|o later]; cbn [app] in Heq.
  - injection Heq as <- <-. exists m, l. auto.
  - injection Heq as _ Heq. destruct later as [|o' later]; cbn [app] in Heq.
    + discriminate Heq.
    + injection Heq as _ Heq. exact (Hl later earlier eff' Hc Heq).
Qed.

Lemma Registered_In (m : IpcMessage) (eff : Effect) (l : list (Obs W)) :
  ipcListener m = Some eff -> Registered l -> In (Did (IpcMainOn m)) l.
Proof.
  intros Hm Hr. unfold Registered in Hr. rewrite Forall_forall in Hr.
  apply Hr. destruct m; try discriminate Hm; cbn; auto.
Qed.

Lemma Requests_boot : Requests boot.
Proof.
  unfold initializeApplication, seq_action.
  destruct (dev host); constructor; cbn; try discriminate;
    repeat (apply OnRequest_cons; [reflexivity|]);
    intros [|? ?] ? ? ? ?; discriminate.
Qed.

Lemma Requests_step (e : Event W) (w : World W) :
  Requests w -> Requests (step e w).
Proof.
  intros [Ho Hr]. unfold step. destruct (enabled e w) eqn:En; [|now constructor].
  clear En.
  destruct w as [[sto su wr esa prim wq ws] hn wf ad fi ipc re out doc tr].
  cbn [trace ipcHandlers] in *.
  destruct e; try match goal with m : IpcMessage |- _ => destruct m end;
    unfold_handlers; cbn; split_goal.
  all: constructor; cbn.
  all: try (repeat (apply OnRequest_cons; [reflexivity|]); exact Ho).
  all: try (apply OnRequest_call;
            [ reflexivity
            | eapply Registered_In; [reflexivity | now apply Hr]
            | exact Ho ]).
  all: intros H; try discriminate H.
  all: first
         [ solve [repeat apply Registered_cons; auto]
         | solve [unfold Registered, registrations;
                  repeat (apply Forall_cons;
                          [cbn; repeat first [left; reflexivity | right]|]);
                  apply Forall_nil] ].
Qed.

Lemma Requests_run (evs : list (Event W)) : Requests (run evs boot).
Proof.
  apply (run_invariant Requests).
  - intros e w. apply Requests_step.
  - apply Requests_boot.
Qed.

(** X9.  Each call of [menuManager.popupMenu()],
    [archiveManager.beginBackups()] and [archiveManager.performBackup()] is
    the direct answer to a request: what happened just before it is the
    receipt of a message on the channel whose listener makes that call, the
    channel being registered by then.  No other event triggers these
    calls. *)
Theorem collaborators_called_only_on_request
    (evs : list (Event W)) (later earlier : list (Obs W)) (eff : Effect) :
  isCollaboratorCall eff = true ->
  trace (run evs boot) = later ++ Did eff :: earlier ->
  exists m rest,
    ipcListener m = Some eff /\
    earlier = Occurred (IpcSend m) :: rest /\
    In (Did (IpcMainOn m)) rest.
Proof.
  intros Hc Heq. destruct (Requests_run evs) as [Ho _].
  exact (Ho later earlier eff Hc Heq).
Qed.

(** X10.  When the bootstrap promise is rejected in a process that holds
    the lock and has received [ready], the promise of
    [finishApplicationInitialization] is rejected with the same reason, and
    nothing handles that rejection. *)
Theorem rejection_after_ready_is_unhandled (evs : list (Event W)) (e : string) :
  address (run evs boot) = Rejected e ->
  readyEmitted (run evs boot) = true ->
  lockGranted host = true ->
  finish (run evs boot) = Some (Rejected e) /\
  In (Did (UnhandledRejection e)) (trace (run evs boot)).
Proof.
  intros Ha Hr L.
  destruct (Ledger_run evs)
    as ([_ _ _ _ Hf _ _ _ _] & _ & [_ _ _ _ _ _ Hu _ _ _ Hready _ _]).
  specialize (Hready Hr L). unfold Finishing in Hf.
  assert (E : finish (run evs boot) = Some (Rejected e)).
  { destruct (finish (run evs boot)) as [[| |e']|]; try contradiction.
    - destruct Hf as (Hf & _). congruence.
    - destruct Hf as ([h Hf] & _). congruence.
    - destruct Hf as (Hf & _). congruence. }
  split; [exact E | now apply Hu].
Qed.

(** X11.  A failed write of the start document is as fatal as a server
    that does not start: the bootstrap promise is rejected with the error
    of the write, the dialog shows it, [app.quit()] is called and the window
    is never told to load. *)
Theorem write_failure_is_fatal (evs : list (Event W)) (e : string) :
  writeFile (run evs boot) = Some (Rejected e) ->
  address (run evs boot) = Rejected e /\
  dialogs (trace (run evs boot)) = 1 /\
  In (Did (ShowMessageBoxSync e)) (trace (run evs boot)) /\
  In (Did AppQuit) (trace (run evs boot)) /\
  (forall u, ~ In (Did (WindowLoadURL u)) (trace (run evs boot))).
Proof.
  intros Hw. destruct (Inv_run evs) as [_ Hp Hd Hq _ _ Hnl _ _].
  unfold Phase in Hp. rewrite Hw in Hp.
  destruct (hostName (run evs boot)); try contradiction.
  destruct (address (run evs boot)) as [| |e'] eqn:Ha; try contradiction.
  destruct Hp as (<- & _). destruct (Hq e eq_refl) as (Hquit & Hshown).
  repeat split; try assumption.
  intros u Hin. destruct (Hnl u Hin) as [h Hh]. discriminate.
Qed.

Lemma times_WindowLoadURL_In (l : list (Obs W)) :
  1 <= times isWindowLoadURL l -> exists u, In (Did (WindowLoadURL u)) l.
Proof.
  induction l as [|o l IH]; cbn; [lia|].
  destruct o as [e | eff].
  - intros H. destruct (IH H) as [u Hu]. exists u. now right.
  - destruct eff; cbn; try (intros H; destruct (IH H) as [u Hu]; exists u; now right).
    intros _. eexists. left. reflexivity.
Qed.

(** X12.  No listener assigns [startUrl], [webRoot], [isPrimaryInstance] or
    [extensionsServerAddress]: they keep the values that
    [initializeApplication] gave them. *)
Theorem fixed_fields_never_assigned (evs : list (Event W)) :
  startUrl (state (run evs boot)) = path_join [userData host; "index.html"] /\
  webRoot (state (run evs boot))
  = match APP_RELATIVE_PATH o0 with
    | Some rel => path_join [dirname host; rel]
    | None => dirname host
    end /\
  isPrimaryInstance (state (run evs boot)) = lockGranted host /\
  extensionsServerAddress (state (run evs boot)) = AddressPromise.
Proof. destruct (Inv_run evs) as [H _ _ _ _ _ _ _ _]. exact H. Qed.

(** X13.  A process that did not get the lock calls [app.quit()] once
    [ready] has been delivered, on every platform, and never registers an
    IPC channel, creates a tray icon or loads a URL. *)
Theorem losing_instance_only_quits (evs : list (Event W)) :
  lockGranted host = false ->
  (In (Occurred AppReady) (trace (run evs boot)) ->
   In (Did AppQuit) (trace (run evs boot))) /\
  (forall m, times (isRegistration m) (trace (run evs boot)) = 0) /\
  times isCreateTrayIcon (trace (run evs boot)) = 0 /\
  times isWindowLoadURL (trace (run evs boot)) = 0.
Proof.
  intros L.
  destruct (Ledger_run evs)
    as ([_ _ _ _ _ Hsec _ _ _] & [_ _ Hr Ht _ Hl]
        & [_ _ _ _ _ _ _ _ _ _ _ Hq He]).
  rewrite (Hsec L) in *. cbn in *. repeat split.
  - intros Hin. apply Hq; [now apply He | exact L].
  - exact Hr.
  - lia.
  - exact Hl.
Qed.

(** X14.  In a process that holds the lock, once [ready] has been
    delivered and the bootstrap promise is fulfilled, the window has been
    told to load exactly once, and it was [startUrl]. *)
Theorem window_loads_once_ready_and_bootstrapped
    (evs : list (Event W)) (h : string) :
  lockGranted host = true ->
  In (Occurred AppReady) (trace (run evs boot)) ->
  address (run evs boot) = Fulfilled h ->
  times isWindowLoadURL (trace (run evs boot)) = 1 /\
  In (Did (WindowLoadURL (path_join [userData host; "index.html"])))
     (trace (run evs boot)).
Proof.
  intros L Hin Ha.
  destruct (Ledger_run evs)
    as ([_ _ _ _ Hf _ _ Hla _] & [_ _ _ _ _ Hl]
        & [_ _ _ _ _ _ _ _ _ _ Hready _ He]).
  apply He in Hin. specialize (Hready Hin L). unfold Finishing in Hf.
  assert (E : times isWindowLoadURL (trace (run evs boot)) = 1).
  { rewrite Hl.
    destruct (finish (run evs boot)) as [[| |e']|]; try contradiction.
    - destruct Hf as (Hf & _). congruence.
    - reflexivity.
    - destruct Hf as (Hf & _). congruence. }
  split; [exact E|].
  destruct (times_WindowLoadURL_In (trace (run evs boot))) as [u Hu]; [lia|].
  destruct (in_split _ _ Hu) as (later & earlier & Hsplit).
  destruct (Hla later earlier u Hsplit) as (-> & _). exact Hu.
Qed.

End Runs.


(** A start that holds the lock completes its bootstrap: once [ready] was
    delivered, the server reported its host name and the write ended, in any
    order the event loop allows, the window has been told to load the start
    document. *)
Lemma bootstrap_loads_start_document {W : Type} {BW : BrowserWindow W}
    (path_join : list string -> string) (host : Host) (o0 : Outside)
    (h : string) (evs : list (Event W)) :
  lockGranted host = true ->
  In evs [[AppReady; ServerStarted h; WriteFileDone];
          [ServerStarted h; AppReady; WriteFileDone];
          [ServerStarted h; WriteFileDone; AppReady]] ->
  (exists earlier,
      trace (run path_join host evs (initializeApplication path_join host o0))
      = Did (WindowLoadURL (startUrl0 path_join host)) :: earlier) /\
  windowState (state (run path_join host evs
                        (initializeApplication path_join host o0)))
  = Some (loadURL (startUrl0 path_join host) created) /\
  document (run path_join host evs (initializeApplication path_join host o0))
  = Written (content path_join host o0 h).
Proof.
  intros L Hin. destruct host as [dn ud loc pf lg dv idx]. cbn in L. subst lg.
  unfold content, startUrl0, webRoot0. cbn [index userData dirname].
  destruct o0 as [rel menu tray].
  destruct dv, pf, tray, Hin as [<- | [<- | [<- | []]]];
    cbv -[buildIndexFile loadURL created];
    (split; [eexists; reflexivity | split; reflexivity]).
Qed.
End Lifecycle.

(** ** Facts about strings *)

Module StringFacts.
Import JSString.

Lemma app_assoc (s t u : string) : (s ++ t) ++ u = s ++ t ++ u.
Proof. induction s as [|c s IH]; simpl; [reflexivity | now rewrite IH]. Qed.

Lemma app_nil_r (s : string) : s ++ "" = s.
Proof. induction s as [|c s IH]; simpl; [reflexivity | now rewrite IH]. Qed.

Lemma length_app (s t : string) : length (s ++ t) = length s + length t.
Proof. induction s as [|c s IH]; simpl; [reflexivity | now rewrite IH]. Qed.

Lemma snoc_app (b : string) (c : ascii) (s : string) :
  snoc b c ++ s = b ++ String c s.
Proof. unfold snoc. now rewrite app_assoc. Qed.

Lemma drop_app_length (p t : string) : drop (length p) (p ++ t) = t.
Proof. induction p as [|c p IH]; simpl; [now destruct t | exact IH]. Qed.

Lemma length_drop (n : nat) (s : string) : length (drop n s) = length s - n.
Proof.
  revert n. induction s as [|c s IH]; intros [|n]; simpl; auto.
Qed.

Lemma prefix_cons (a b : ascii) (p s : string) :
  prefix (String a p) (String b s) = true <-> a = b /\ prefix p s = true.
Proof.
  simpl. destruct (ascii_dec a b) as [E|N]; split.
  - auto.
  - now intros [_ H].
  - discriminate.
  - intros [E _]. contradiction.
Qed.

Lemma prefix_app (p t : string) : prefix p (p ++ t) = true.
Proof.
  induction p as [|c p IH]; simpl.
  - now destruct t.
  - destruct (ascii_dec c c); [exact IH | contradiction].
Qed.

Lemma prefix_split (p s : string) :
  prefix p s = true -> s = p ++ drop (length p) s.
Proof.
  revert s. induction p as [|a p IH]; intros s H.
  - now destruct s.
  - destruct s as [|b s]; [discriminate|].
    apply prefix_cons in H. destruct H as [-> H]. simpl.
    f_equal. now apply IH.
Qed.

Lemma prefix_app_mono (p a b : string) :
  prefix p a = true -> prefix p (a ++ b) = true.
Proof.
  intros H. rewrite (prefix_split _ _ H), app_assoc. apply prefix_app.
Qed.

(** A match of [p] at the start of [u ++ w] lies in [u] when it fits there,
    and otherwise its tail past [u] starts [w]. *)
Lemma prefix_app_cases (p u w : string) :
  prefix p (u ++ w) = true ->
  (length p <= length u -> prefix p u = true) /\
  (length u <= length p -> prefix (drop (length u) p) w = true).
Proof.
  revert p. induction u as [|c u IH]; intros p H.
  - simpl in *. split; [|intros _; exact H].
    destruct p; simpl; [reflexivity | lia].
  - destruct p as [|a p].
    + split; [reflexivity | simpl; lia].
    + change (String c u ++ w) with (String c (u ++ w)) in H.
      apply prefix_cons in H. destruct H as [-> H].
      destruct (IH _ H) as [H1 H2]. simpl length. split; intros L.
      * apply prefix_cons. split; [reflexivity | apply H1; lia].
      * simpl. apply H2. lia.
Qed.

Lemma occurs_cons_false (pat : string) (c : ascii) (s : string) :
  occurs pat (String c s) = false ->
  prefix pat (String c s) = false /\ occurs pat s = false.
Proof.
  cbn [occurs]. intros H. now apply orb_false_iff in H.
Qed.

Lemma occurs_false_prefix (pat s : string) :
  occurs pat s = false -> prefix pat s = false.
Proof.
  destruct s; cbn [occurs]; intros H; now apply orb_false_iff in H.
Qed.

Lemma GetSubstitution_plain (matched before after r : string) :
  contains "$" r = false -> GetSubstitution matched before after r = r.
Proof.
  induction r as [|c r IH]; simpl; [reflexivity|].
  intros H. apply orb_false_iff in H. destruct H as [Hc Hr].
  rewrite Hc. now rewrite IH.
Qed.

End StringFacts.

(** ** What the two replacements compute *)

Module ReplaceFacts.
Import JSString IndexBuilder StringFacts ReplaceSpec.

Lemma replaceFrom_spec (pat r : string) :
  forall s before,
    (occurs pat s = false /\ replaceFrom pat r before s = before ++ s) \/
    (exists pre post,
        s = pre ++ pat ++ post /\
        NoMatchBefore pat (length pre) s /\
        replaceFrom pat r before s =
          before ++ pre ++ GetSubstitution pat (before ++ pre) post r ++ post).
Proof.
  induction s as [|c s IH]; intros before.
  - cbn [replaceFrom occurs]. destruct (prefix pat "") eqn:E.
    + right. exists "", (drop (length pat) ""). repeat split.
      * now apply prefix_split.
      * intros i Hi. simpl in Hi. lia.
      * now rewrite app_nil_r.
    + left. now rewrite app_nil_r.
  - cbn [replaceFrom occurs]. destruct (prefix pat (String c s)) eqn:E.
    + right. exists "", (drop (length pat) (String c s)). repeat split.
      * now apply prefix_split.
      * intros i Hi. simpl in Hi. lia.
      * now rewrite app_nil_r.
    + destruct (IH (snoc before c)) as [[Hn Hr] | (pre & post & Hs & Hf & Hr)].
      * left. split; [exact Hn|]. now rewrite Hr, snoc_app.
      * right. exists (String c pre), post. repeat split.
        -- simpl. now rewrite <- Hs.
        -- intros [|i] Hi; [exact E|]. simpl in *. apply Hf. lia.
        -- rewrite Hr, !snoc_app. reflexivity.
Qed.

Lemma replace_plain (pat r s : string) :
  contains "$" r = false -> ReplacedFirst pat r s (replace pat r s).
Proof.
  intros Hr. unfold replace.
  destruct (replaceFrom_spec pat r s "") as [[Hn Ho] | (pre & post & Hs & Hf & Ho)].
  - left. split; [exact Hn | exact Ho].
  - right. exists pre, post. repeat split; [exact Hs | exact Hf |].
    rewrite Ho. cbn [append]. now rewrite GetSubstitution_plain.
Qed.

Section Global.

Variables (a : ascii) (p r : string).
Let pat := String a p.

Lemma replaceAllFrom_skip (u t before : string) :
  replaceAllFrom pat r before (length u) (u ++ t)
  = replaceAllFrom pat r (before ++ u) 0 t \/ (t = "" /\ u <> "").
Proof.
  revert before. induction u as [|c u IH]; intros before.
  - left. now rewrite app_nil_r.
  - simpl. destruct (IH (snoc before c)) as [H | [-> _]].
    + left. now rewrite H, snoc_app.
    + right. split; [reflexivity | discriminate].
Qed.

Lemma replaceAllFrom_skip_end (u before : string) :
  replaceAllFrom pat r before (length u) u = "".
Proof.
  revert before. induction u as [|c u IH]; intros before; simpl; [reflexivity|].
  apply IH.
Qed.

Lemma replaceAllFrom_skip_app (u t before : string) :
  replaceAllFrom pat r before (length u) (u ++ t)
  = replaceAllFrom pat r (before ++ u) 0 t.
Proof.
  destruct (replaceAllFrom_skip u t before) as [H | [-> _]]; [exact H|].
  rewrite app_nil_r, replaceAllFrom_skip_end. reflexivity.
Qed.

Lemma replaceAllFrom_match (t before : string) :
  replaceAllFrom pat r before 0 (pat ++ t)
  = GetSubstitution pat before t r ++ replaceAllFrom pat r (before ++ pat) 0 t.
Proof.
  unfold pat at 2. cbn [append replaceAllFrom].
  change (String a (p ++ t)) with (pat ++ t).
  rewrite prefix_app, drop_app_length. cbn [length pat].
  rewrite replaceAllFrom_skip_app, snoc_app. reflexivity.
Qed.

Lemma replaceAllFrom_pass (c : ascii) (s before : string) :
  prefix pat (String c s) = false ->
  replaceAllFrom pat r before 0 (String c s)
  = String c (replaceAllFrom pat r (snoc before c) 0 s).
Proof. intros H. cbn [replaceAllFrom]. now rewrite H. Qed.

Lemma replaceAllFrom_free (s before : string) :
  occurs pat s = false -> replaceAllFrom pat r before 0 s = s.
Proof.
  revert before. induction s as [|c s IH]; intros before H; [reflexivity|].
  apply occurs_cons_false in H. destruct H as [H1 H2].
  rewrite replaceAllFrom_pass by exact H1. now rewrite IH.
Qed.

Lemma concat_cons (sep x : string) (xs : list string) :
  xs <> [] -> concat sep (x :: xs) = x ++ sep ++ concat sep xs.
Proof. destruct xs; [contradiction | reflexivity]. Qed.

Lemma concat_String (sep : string) (c : ascii) (x : string) (xs : list string) :
  concat sep (String c x :: xs) = String c (concat sep (x :: xs)).
Proof. destruct xs; reflexivity. Qed.

Lemma concat_head (sep x : string) (xs : list string) :
  exists t, concat sep (x :: xs) = x ++ t.
Proof.
  destruct xs as [|y ys].
  - exists "". simpl. now rewrite app_nil_r.
  - eexists. reflexivity.
Qed.

Hypothesis r_plain : contains "$" r = false.

(** Every text splits at the matches the scan finds, and the result is the
    same pieces with [r] between them. *)
Lemma replaceAllFrom_pieces (n : nat) :
  forall s before, length s <= n ->
    exists segs, segs <> [] /\ Pieces pat segs s /\
                 replaceAllFrom pat r before 0 s = concat r segs.
Proof.
  induction n as [|n IH]; intros s before Hn.
  - destruct s; [|simpl in Hn; lia].
    exists [""]. repeat split; [discriminate | repeat constructor].
  - destruct s as [|c s].
    + exists [""]. repeat split; [discriminate | repeat constructor].
    + destruct (prefix pat (String c s)) eqn:E.
      * pose proof (prefix_split _ _ E) as Hs.
        set (t := drop (length pat) (String c s)) in *.
        assert (Ht : length t <= n).
        { apply (f_equal length) in Hs. rewrite length_app in Hs.
          unfold pat in Hs. simpl in Hs, Hn. lia. }
        destruct (IH t (before ++ pat) Ht) as (segs & Hne & [Hfree Hcat] & Hout).
        exists ("" :: segs). split; [discriminate|]. split; [split|].
        -- constructor; [reflexivity | exact Hfree].
        -- rewrite concat_cons by exact Hne. simpl. now rewrite <- Hcat.
        -- rewrite Hs, replaceAllFrom_match, Hout, GetSubstitution_plain by exact r_plain.
           now rewrite concat_cons by exact Hne.
      * simpl in Hn.
        destruct (IH s (snoc before c)) as (segs & Hne & [Hfree Hcat] & Hout); [lia|].
        destruct segs as [|seg rest]; [contradiction|].
        exists (String c seg :: rest). split; [discriminate|]. split; [split|].
        -- pose proof (Forall_inv Hfree) as Hseg. cbv beta in Hseg.
           constructor; [|exact (Forall_inv_tail Hfree)].
           cbn [occurs]. rewrite Hseg, orb_false_r.
           destruct (prefix pat (String c seg)) eqn:E'; [|reflexivity].
           destruct (concat_head pat seg rest) as [t Ht].
           rewrite Hcat, Ht in E.
           change (String c (seg ++ t)) with (String c seg ++ t) in E.
           now rewrite (prefix_app_mono _ _ t E') in E.
        -- now rewrite concat_String, <- Hcat.
        -- rewrite replaceAllFrom_pass by exact E. now rewrite Hout, concat_String.
Qed.

Hypothesis pat_borderless : borderless pat = true.

Lemma no_match_across (u t : string) :
  u <> "" -> occurs pat u = false -> prefix pat (u ++ pat ++ t) = false.
Proof.
  intros Hu Hfree. destruct (prefix pat (u ++ pat ++ t)) eqn:E; [|reflexivity].
  exfalso. destruct (prefix_app_cases _ _ _ E) as [H1 H2].
  destruct (le_lt_dec (length pat) (length u)) as [L|L].
  - apply occurs_false_prefix in Hfree. rewrite H1 in Hfree by exact L. discriminate.
  - assert (H3 : prefix (drop (length u) pat) (pat ++ t) = true) by (apply H2; lia).
    destruct (prefix_app_cases _ _ _ H3) as [H4 _].
    assert (H5 : prefix (drop (length u) pat) pat = true).
    { apply H4. rewrite length_drop. lia. }
    unfold borderless in pat_borderless.
    rewrite forallb_forall in pat_borderless.
    assert (Hin : In (length u) (seq 1 (length pat - 1))).
    { apply in_seq. destruct u; [contradiction | simpl in *; lia]. }
    apply pat_borderless in Hin. rewrite H5 in Hin. discriminate.
Qed.

Lemma replaceAllFrom_lead (u t before : string) :
  occurs pat u = false ->
  replaceAllFrom pat r before 0 (u ++ pat ++ t)
  = u ++ replaceAllFrom pat r (before ++ u) 0 (pat ++ t).
Proof.
  revert before. induction u as [|c u IH]; intros before Hfree.
  - now rewrite app_nil_r.
  - pose proof (no_match_across (String c u) t ltac:(discriminate) Hfree) as E.
    apply occurs_cons_false in Hfree. destruct Hfree as [_ Hfree].
    change (String c u ++ pat ++ t) with (String c (u ++ pat ++ t)) in *.
    rewrite replaceAllFrom_pass by exact E.
    rewrite IH by exact Hfree. now rewrite snoc_app.
Qed.

(** For a pattern that cannot overlap itself the split is unique: however the
    text is cut into pattern-free pieces joined by [pat], the result is those
    pieces joined by [r]. *)
Lemma replaceAllFrom_concat (segs : list string) :
  forall before,
    Forall (fun seg => occurs pat seg = false) segs ->
    replaceAllFrom pat r before 0 (concat pat segs) = concat r segs.
Proof.
  induction segs as [|seg rest IH]; intros before Hfree; [reflexivity|].
  pose proof (Forall_inv Hfree) as Hseg. cbv beta in Hseg.
  pose proof (Forall_inv_tail Hfree) as Hrest.
  destruct rest as [|seg' rest].
  - simpl. now apply replaceAllFrom_free.
  - rewrite !concat_cons by discriminate.
    rewrite replaceAllFrom_lead by exact Hseg.
    rewrite replaceAllFrom_match, GetSubstitution_plain by exact r_plain.
    now rewrite IH.
Qed.

End Global.

Lemma BASE_URL_borderless : borderless BASE_URL = true.
Proof. reflexivity. Qed.

Lemma replaceAll_BASE_URL_pieces (r s : string) :
  contains "$" r = false ->
  (exists segs, Pieces BASE_URL segs s) /\
  (forall segs, Pieces BASE_URL segs s -> replaceAll BASE_URL r s = concat r segs).
Proof.
  intros Hr. split.
  - destruct (replaceAllFrom_pieces "{" "{BASE_URL}}" r Hr (length s) s "" (le_n _))
      as (segs & _ & Hp & _).
    exists segs. exact Hp.
  - intros segs [Hfree ->].
    exact (replaceAllFrom_concat "{" "{BASE_URL}}" r Hr BASE_URL_borderless segs "" Hfree).
Qed.

(** C4, as amended.  When neither [hostName] nor [baseUrl] contains [$],
    [buildIndexFile] turns the first occurrence of the host-name token into
    [hostName], leaves the text around it as it is, and then turns every
    occurrence of the base-URL token in the result into [baseUrl], leaving
    the pieces between them as they are.  On the template of the scenario it
    returns the document of the scenario, in which neither token is left. *)
Theorem buildIndexFile_first_host_every_base (index hostName baseUrl : string) :
  contains "$" hostName = false ->
  contains "$" baseUrl = false ->
  (exists mid,
      ReplacedFirst EXT_SERVER_HOST_NAME hostName index mid /\
      (exists segs, Pieces BASE_URL segs mid) /\
      (forall segs, Pieces BASE_URL segs mid ->
                    buildIndexFile index hostName baseUrl = concat baseUrl segs)) /\
  buildIndexFile scenarioTemplate "ext.local:9999" "/app/root" = scenarioDocument /\
  occurs EXT_SERVER_HOST_NAME scenarioDocument = false /\
  occurs BASE_URL scenarioDocument = false.
Proof.
  intros Hh Hb. split; [|repeat split; reflexivity].
  exists (replace EXT_SERVER_HOST_NAME hostName index). split.
  - now apply replace_plain.
  - now apply replaceAll_BASE_URL_pieces.
Qed.

(** C4, an instance: the template, host name and base path of the
    scenario. *)
Lemma buildIndexFile_first_host_every_base_witness :
  contains "$" "ext.local:9999" = false /\
  contains "$" "/app/root" = false /\
  ((exists mid,
      ReplacedFirst EXT_SERVER_HOST_NAME "ext.local:9999" scenarioTemplate mid /\
      (exists segs, Pieces BASE_URL segs mid) /\
      (forall segs, Pieces BASE_URL segs mid ->
                    buildIndexFile scenarioTemplate "ext.local:9999" "/app/root"
                    = concat "/app/root" segs)) /\
   buildIndexFile scenarioTemplate "ext.local:9999" "/app/root" = scenarioDocument /\
   occurs EXT_SERVER_HOST_NAME scenarioDocument = false /\
   occurs BASE_URL scenarioDocument = false).
Proof.
  split; [reflexivity|]. split; [reflexivity|].
  apply (buildIndexFile_first_host_every_base scenarioTemplate
           "ext.local:9999" "/app/root"); reflexivity.
Defined.

(** A [$] in a replacement value starts a replacement pattern: here [$&]
    puts the matched token back. *)
Lemma dollar_in_baseUrl_is_expanded :
  buildIndexFile "<{{BASE_URL}}>" "ext.local:9999" "/a$&b" = "</a{{BASE_URL}}b>".
Proof. reflexivity. Qed.

(** C4 as stated does not hold: of two host-name tokens in a template the
    second is not substituted, so the result is not the template with every
    token substituted. *)
Lemma second_host_token_not_substituted :
  buildIndexFile (render [HostToken; Text "|"; HostToken; Text "|"; BaseToken])
    "ext.local:9999" "/app/root"
  = "ext.local:9999|{{EXT_SERVER_HOST_NAME}}|/app/root" /\
  buildIndexFile (render [HostToken; Text "|"; HostToken; Text "|"; BaseToken])
    "ext.local:9999" "/app/root"
  <> fill "ext.local:9999" "/app/root"
       [HostToken; Text "|"; HostToken; Text "|"; BaseToken].
Proof. split; [reflexivity | vm_compute; discriminate]. Qed.

(** *** Replacement values with [$] in them *)

Lemma replace_substituted (pat r s : string) :
  SubstitutedFirst pat r s (replace pat r s).
Proof.
  unfold replace.
  destruct (replaceFrom_spec pat r s "") as [[Hn Ho] | (pre & post & Hs & Hf & Ho)].
  - left. split; [exact Hn | exact Ho].
  - right. exists pre, post. repeat split; [exact Hs | exact Hf | exact Ho].
Qed.

Lemma SubstitutedFirst_plain (pat r s out : string) :
  contains "$" r = false -> SubstitutedFirst pat r s out -> ReplacedFirst pat r s out.
Proof.
  intros Hr [H | (pre & post & Hs & Hf & Ho)]; [now left|].
  right. exists pre, post. repeat split; [exact Hs | exact Hf |].
  now rewrite Ho, GetSubstitution_plain.
Qed.

Lemma substituteBetween_cons (pat r before seg seg' : string) (rest : list string) :
  substituteBetween pat r before (seg :: seg' :: rest)
  = seg ++ GetSubstitution pat (before ++ seg) (concat pat (seg' :: rest)) r
        ++ substituteBetween pat r ((before ++ seg) ++ pat) (seg' :: rest).
Proof. reflexivity. Qed.

Lemma substituteBetween_plain (pat r : string) (segs : list string) :
  contains "$" r = false ->
  forall before, substituteBetween pat r before segs = concat r segs.
Proof.
  intros Hr. induction segs as [|seg rest IH]; intros before; [reflexivity|].
  destruct rest as [|seg' rest]; [reflexivity|].
  rewrite substituteBetween_cons, GetSubstitution_plain by exact Hr.
  rewrite (IH ((before ++ seg) ++ pat)). reflexivity.
Qed.

(** For a pattern that cannot overlap itself, every occurrence between the
    pieces is substituted, whatever the replacement value is. *)
Lemma replaceAllFrom_between (a : ascii) (p r : string) (segs : list string) :
  borderless (String a p) = true ->
  forall before,
    Forall (fun seg => occurs (String a p) seg = false) segs ->
    replaceAllFrom (String a p) r before 0 (concat (String a p) segs)
    = substituteBetween (String a p) r before segs.
Proof.
  intros Hb. induction segs as [|seg rest IH]; intros before Hfree; [reflexivity|].
  pose proof (Forall_inv Hfree) as Hseg. cbv beta in Hseg.
  pose proof (Forall_inv_tail Hfree) as Hrest.
  destruct rest as [|seg' rest].
  - simpl. now apply replaceAllFrom_free.
  - rewrite concat_cons by discriminate.
    rewrite (replaceAllFrom_lead a p r Hb) by exact Hseg.
    rewrite replaceAllFrom_match, substituteBetween_cons.
    now rewrite IH.
Qed.

Lemma Pieces_exist (s : string) : exists segs, Pieces BASE_URL segs s.
Proof.
  destruct (replaceAllFrom_pieces "{" "{BASE_URL}}" "" eq_refl (length s) s "" (le_n _))
    as (segs & _ & Hp & _).
  exists segs. exact Hp.
Qed.

(** C9.  Whatever the template, the host name and the base path are:
    only the first occurrence of the host-name token is replaced, by what
    JavaScript substitutes for [hostName] there, and the text after it is
    kept as it is; and every occurrence of the base-URL token in the result
    of that is replaced, by what JavaScript substitutes for [baseUrl] there,
    the pieces between the occurrences being kept.  For values without [$]
    what is substituted is the value itself.  In the template
    [<a>T</a><b>T</b>], with [T] the host-name token, the second [T] is in
    the output as it was. *)
Theorem host_token_once_base_token_everywhere :
  (forall index hostName,
      SubstitutedFirst EXT_SERVER_HOST_NAME hostName index
        (replace EXT_SERVER_HOST_NAME hostName index)) /\
  (forall index hostName,
      exists segs,
        Pieces BASE_URL segs (replace EXT_SERVER_HOST_NAME hostName index)) /\
  (forall index hostName baseUrl segs,
      Pieces BASE_URL segs (replace EXT_SERVER_HOST_NAME hostName index) ->
      buildIndexFile index hostName baseUrl
      = substituteBetween BASE_URL baseUrl "" segs) /\
  (forall pat r s out,
      contains "$" r = false ->
      SubstitutedFirst pat r s out -> ReplacedFirst pat r s out) /\
  (forall pat r before segs,
      contains "$" r = false ->
      substituteBetween pat r before segs = concat r segs) /\
  (exists pre post,
      occurs EXT_SERVER_HOST_NAME post = true /\
      buildIndexFile (pre ++ EXT_SERVER_HOST_NAME ++ post) "ext.local:9999" "/app/root"
      = pre ++ "ext.local:9999" ++ post).
Proof.
  split; [|split; [|split; [|split; [|split]]]].
  - intros index hostName. apply replace_substituted.
  - intros index hostName. apply Pieces_exist.
  - intros index hostName baseUrl segs [Hfree Hcat].
    unfold buildIndexFile, replaceAll. rewrite Hcat.
    exact (replaceAllFrom_between "{" "{BASE_URL}}" baseUrl segs
             BASE_URL_borderless "" Hfree).
  - intros pat r s out. apply SubstitutedFirst_plain.
  - intros pat r before segs Hr. now apply substituteBetween_plain.
  - exists "<a>", "</a><b>{{EXT_SERVER_HOST_NAME}}</b>". split; reflexivity.
Qed.

(** *** Tokens that are left, and tokens that are not *)

Lemma occurs_app_true_l (pat x y : string) :
  occurs pat x = true -> occurs pat (x ++ y) = true.
Proof.
  induction x as [|c x IH]; cbn [occurs append]; intros H.
  - rewrite orb_false_r in H. destruct pat; [|discriminate H].
    destruct y; reflexivity.
  - apply orb_true_iff in H. apply orb_true_iff. destruct H as [H | H].
    + left. exact (prefix_app_mono pat (String c x) y H).
    + right. now apply IH.
Qed.

Lemma occurs_app_true_r (pat x y : string) :
  occurs pat y = true -> occurs pat (x ++ y) = true.
Proof.
  intros H. induction x as [|c x IH]; [exact H|].
  cbn [occurs append]. rewrite IH. apply orb_true_r.
Qed.

Lemma occurs_app_false (pat x y : string) :
  occurs pat (x ++ y) = false -> occurs pat x = false /\ occurs pat y = false.
Proof.
  intros H. split.
  - destruct (occurs pat x) eqn:E; [|reflexivity].
    now rewrite (occurs_app_true_l _ _ y E) in H.
  - destruct (occurs pat y) eqn:E; [|reflexivity].
    now rewrite (occurs_app_true_r _ x _ E) in H.
Qed.

(** A match cannot run into a code unit that [pat] does not contain. *)
Lemma prefix_stops_at (pat x y : string) (c : ascii) :
  contains c pat = false ->
  prefix pat (x ++ String c y) = true -> prefix pat x = true.
Proof.
  revert pat. induction x as [|b x IH]; intros pat Hc H.
  - destruct pat as [|a p]; [reflexivity|].
    cbn [append] in H. apply prefix_cons in H. destruct H as [-> _].
    cbn [contains] in Hc. now rewrite Ascii.eqb_refl in Hc.
  - destruct pat as [|a p]; [reflexivity|].
    cbn [append] in H. apply prefix_cons in H. destruct H as [-> H].
    apply prefix_cons. split; [reflexivity|].
    apply IH; [|exact H].
    cbn [contains] in Hc. now apply orb_false_iff in Hc.
Qed.

Lemma occurs_app_stops (pat x y : string) (c : ascii) :
  contains c pat = false ->
  occurs pat x = false -> occurs pat (String c y) = false ->
  occurs pat (x ++ String c y) = false.
Proof.
  intros Hc Hx Hy. induction x as [|b x IH]; [exact Hy|].
  apply occurs_cons_false in Hx. destruct Hx as [Hp Hx].
  cbn [append occurs]. apply orb_false_iff. split; [|now apply IH].
  destruct (prefix pat (String b (x ++ String c y))) eqn:E; [|reflexivity].
  change (String b (x ++ String c y)) with (String b x ++ String c y) in E.
  now rewrite (prefix_stops_at _ _ _ _ Hc E) in Hp.
Qed.

Lemma snoc_lastOr (c : ascii) (r : string) :
  exists x, String c r = snoc x (lastOr c r).
Proof.
  revert c. induction r as [|d r IH]; intros c.
  - now exists "".
  - destruct (IH d) as [x Hx]. exists (String c x).
    cbn [lastOr]. unfold snoc in *. cbn [append]. now rewrite <- Hx.
Qed.

Lemma Insulated_inv (pat r : string) :
  Insulated pat r = true ->
  exists c r' x,
    r = String c r' /\ r = snoc x (lastOr c r') /\
    contains c pat = false /\ contains (lastOr c r') pat = false /\
    occurs pat r = false.
Proof.
  destruct r as [|c r']; [discriminate|]. cbn [Insulated]. intros H.
  apply andb_true_iff in H. destruct H as [H H3].
  apply andb_true_iff in H. destruct H as [H1 H2].
  apply negb_true_iff in H1, H2, H3.
  destruct (snoc_lastOr c r') as [x Hx].
  exists c, r', x. repeat split; assumption.
Qed.

(** An insulated text between two pattern-free texts makes no occurrence
    of the pattern. *)
Lemma occurs_insulated_between (pat r u t : string) :
  Insulated pat r = true ->
  occurs pat u = false -> occurs pat t = false ->
  occurs pat (u ++ r ++ t) = false.
Proof.
  intros Hr Hu Ht.
  destruct (Insulated_inv _ _ Hr) as (c & r' & x & E1 & E2 & Hc & Hl & Hfree).
  assert (Hrt : occurs pat (r ++ t) = false).
  { rewrite E2. unfold snoc. rewrite app_assoc. cbn [append].
    apply occurs_app_stops; [exact Hl | |].
    - rewrite E2 in Hfree. unfold snoc in Hfree.
      now apply occurs_app_false in Hfree.
    - cbn [occurs]. rewrite Ht, orb_false_r.
      destruct pat as [|a p]; [rewrite E1 in Hfree; discriminate Hfree|].
      destruct (prefix (String a p) (String (lastOr c r') t)) eqn:E; [|reflexivity].
      apply prefix_cons in E. destruct E as [-> _].
      cbn [contains] in Hl. now rewrite Ascii.eqb_refl in Hl. }
  rewrite E1 in Hrt |- *. cbn [append] in Hrt |- *.
  apply occurs_app_stops; assumption.
Qed.

(** Joining pattern-free pieces with an insulated text makes no occurrence
    of the pattern. *)
Lemma occurs_concat_insulated (pat r : string) (segs : list string) :
  Insulated pat r = true ->
  Forall (fun seg => occurs pat seg = false) segs ->
  occurs pat (concat r segs) = false.
Proof.
  intros Hr Hsegs.
  induction Hsegs as [|seg rest Hseg Hrest IH].
  - destruct (Insulated_inv _ _ Hr) as (c & r' & x & E1 & _ & _ & _ & Hfree).
    destruct pat; [rewrite E1 in Hfree; discriminate Hfree | reflexivity].
  - destruct rest as [|seg' rest]; [exact Hseg|].
    rewrite concat_cons by discriminate.
    now apply occurs_insulated_between.
Qed.

Lemma occurs_concat_pieces (pat sep : string) (segs : list string) :
  occurs pat (concat sep segs) = false ->
  Forall (fun seg => occurs pat seg = false) segs.
Proof.
  induction segs as [|seg rest IH]; intros H; [constructor|].
  destruct rest as [|seg' rest]; [now repeat constructor|].
  rewrite concat_cons in H by discriminate.
  apply occurs_app_false in H. destruct H as [Hseg H].
  apply occurs_app_false in H. destruct H as [_ H].
  constructor; [exact Hseg | now apply IH].
Qed.

Lemma replaceFrom_free (pat r s before : string) :
  occurs pat s = false -> replaceFrom pat r before s = before ++ s.
Proof.
  revert before. induction s as [|c s IH]; intros before H.
  - cbn [replaceFrom]. cbn [occurs] in H. rewrite orb_false_r in H.
    now rewrite H, app_nil_r.
  - apply occurs_cons_false in H. destruct H as [Hp H].
    cbn [replaceFrom]. rewrite Hp, IH by exact H. apply snoc_app.
Qed.

Lemma EXT_SERVER_HOST_NAME_borderless : borderless EXT_SERVER_HOST_NAME = true.
Proof. reflexivity. Qed.

Lemma replaceFrom_lead (a : ascii) (p r u t before : string) :
  borderless (String a p) = true ->
  occurs (String a p) u = false ->
  replaceFrom (String a p) r before (u ++ String a p ++ t)
  = before ++ u ++ GetSubstitution (String a p) (before ++ u) t r ++ t.
Proof.
  intros Hb. revert before. induction u as [|c u IH]; intros before Hu.
  - cbn [append replaceFrom].
    change (String a (p ++ t)) with (String a p ++ t).
    now rewrite prefix_app, drop_app_length, app_nil_r.
  - pose proof (no_match_across a p Hb (String c u) t ltac:(discriminate) Hu) as E.
    apply occurs_cons_false in Hu. destruct Hu as [_ Hu].
    cbn [append] in E |- *. cbn [replaceFrom]. rewrite E.
    rewrite IH by exact Hu. now rewrite !snoc_app.
Qed.


Lemma build_unchanged (index hostName baseUrl : string) :
  occurs EXT_SERVER_HOST_NAME index = false ->
  occurs BASE_URL index = false ->
  buildIndexFile index hostName baseUrl = index.
Proof.
  intros Hh Hb. unfold buildIndexFile, replace, replaceAll.
  rewrite replaceFrom_free by exact Hh. cbn [append].
  exact (replaceAllFrom_free "{" "{BASE_URL}}" baseUrl index "" Hb).
Qed.

(** X15.  A template that carries neither token is returned as it is,
    whatever the host name and the base path are. *)
Theorem template_without_tokens_unchanged (index hostName baseUrl : string) :
  occurs EXT_SERVER_HOST_NAME index = false ->
  occurs BASE_URL index = false ->
  buildIndexFile index hostName baseUrl = index.
Proof. apply build_unchanged. Qed.

Lemma build_free_of_base (index hostName baseUrl : string) :
  contains "$" baseUrl = false ->
  Insulated BASE_URL baseUrl = true ->
  occurs BASE_URL (buildIndexFile index hostName baseUrl) = false.
Proof.
  intros Hp Hi. unfold buildIndexFile.
  destruct (replaceAll_BASE_URL_pieces baseUrl
              (replace EXT_SERVER_HOST_NAME hostName index) Hp)
    as [[segs Hsegs] Hall].
  rewrite (Hall segs Hsegs). apply occurs_concat_insulated; [exact Hi|].
  exact (proj1 Hsegs).
Qed.

Lemma replace_at_most_once (index hostName : string) :
  contains "$" hostName = false ->
  Insulated EXT_SERVER_HOST_NAME hostName = true ->
  AtMostOnce EXT_SERVER_HOST_NAME index ->
  occurs EXT_SERVER_HOST_NAME (replace EXT_SERVER_HOST_NAME hostName index) = false.
Proof.
  intros Hp Hi [Hfree | (pre & post & -> & Hpre & Hpost)]; unfold replace.
  - now rewrite replaceFrom_free.
  - pose proof (replaceFrom_lead "{" "{EXT_SERVER_HOST_NAME}}" hostName pre post ""
                  EXT_SERVER_HOST_NAME_borderless Hpre) as E.
    change (String "{" "{EXT_SERVER_HOST_NAME}}") with EXT_SERVER_HOST_NAME in E.
    rewrite E, GetSubstitution_plain by exact Hp. cbn [append].
    now apply occurs_insulated_between.
Qed.

Lemma build_free_of_host (index hostName baseUrl : string) :
  contains "$" hostName = false ->
  contains "$" baseUrl = false ->
  Insulated EXT_SERVER_HOST_NAME hostName = true ->
  Insulated EXT_SERVER_HOST_NAME baseUrl = true ->
  AtMostOnce EXT_SERVER_HOST_NAME index ->
  occurs EXT_SERVER_HOST_NAME (buildIndexFile index hostName baseUrl) = false.
Proof.
  intros Hph Hpb Hih Hib Honce.
  pose proof (replace_at_most_once index hostName Hph Hih Honce) as Hmid.
  unfold buildIndexFile.
  destruct (replaceAll_BASE_URL_pieces baseUrl
              (replace EXT_SERVER_HOST_NAME hostName index) Hpb)
    as [[segs Hsegs] Hall].
  rewrite (Hall segs Hsegs). apply occurs_concat_insulated; [exact Hib|].
  destruct Hsegs as [_ Hcat]. rewrite Hcat in Hmid.
  exact (occurs_concat_pieces _ _ _ Hmid).
Qed.

(** X16.  When the base path contains no [$] and is insulated from the
    base-URL token, no base-URL token is left in the document, whatever the
    template and the host name are. *)
Theorem no_base_token_left (index hostName baseUrl : string) :
  contains "$" baseUrl = false ->
  Insulated BASE_URL baseUrl = true ->
  occurs BASE_URL (buildIndexFile index hostName baseUrl) = false.
Proof. apply build_free_of_base. Qed.

(** X17.  For a template that carries the host-name token at most once, and
    a host name and a base path that contain no [$] and are insulated from
    the tokens, the document carries no token at all. *)
Theorem no_token_left (index hostName baseUrl : string) :
  contains "$" hostName = false ->
  contains "$" baseUrl = false ->
  Insulated EXT_SERVER_HOST_NAME hostName = true ->
  Insulated EXT_SERVER_HOST_NAME baseUrl = true ->
  Insulated BASE_URL baseUrl = true ->
  AtMostOnce EXT_SERVER_HOST_NAME index ->
  occurs EXT_SERVER_HOST_NAME (buildIndexFile index hostName baseUrl) = false /\
  occurs BASE_URL (buildIndexFile index hostName baseUrl) = false.
Proof.
  intros Hph Hpb Hih Hib Hibb Honce. split.
  - now apply build_free_of_host.
  - now apply build_free_of_base.
Qed.

(** X18.  Under the same conditions, building again from a built document
    changes nothing, whatever host name and base path the second run is
    given. *)
Theorem rebuild_is_identity (index hostName baseUrl hostName' baseUrl' : string) :
  contains "$" hostName = false ->
  contains "$" baseUrl = false ->
  Insulated EXT_SERVER_HOST_NAME hostName = true ->
  Insulated EXT_SERVER_HOST_NAME baseUrl = true ->
  Insulated BASE_URL baseUrl = true ->
  AtMostOnce EXT_SERVER_HOST_NAME index ->
  buildIndexFile (buildIndexFile index hostName baseUrl) hostName' baseUrl'
  = buildIndexFile index hostName baseUrl.
Proof.
  intros Hph Hpb Hih Hib Hibb Honce.
  apply build_unchanged.
  - now apply build_free_of_host.
  - now apply build_free_of_base.
Qed.

(** X15, an instance: a page without tokens. *)
Lemma template_without_tokens_unchanged_witness :
  occurs EXT_SERVER_HOST_NAME "<html><body></body></html>" = false /\
  occurs BASE_URL "<html><body></body></html>" = false /\
  buildIndexFile "<html><body></body></html>" "ext.local:9999" "/app/root"
  = "<html><body></body></html>".
Proof.
  split; [reflexivity|]. split; [reflexivity|].
  apply (template_without_tokens_unchanged "<html><body></body></html>"
           "ext.local:9999" "/app/root"); reflexivity.
Defined.

(** X16, an instance: the template and base path of the scenario. *)
Lemma no_base_token_left_witness :
  contains "$" "/app/root" = false /\
  Insulated BASE_URL "/app/root" = true /\
  occurs BASE_URL (buildIndexFile scenarioTemplate "ext.local:9999" "/app/root")
  = false.
Proof.
  split; [reflexivity|]. split; [reflexivity|].
  apply (no_base_token_left scenarioTemplate "ext.local:9999" "/app/root");
    reflexivity.
Defined.

(** The template of the scenario carries the host-name token once. *)
Lemma scenarioTemplate_once : AtMostOnce EXT_SERVER_HOST_NAME scenarioTemplate.
Proof.
  right. exists "<script src='http://".
  exists "'></script><img src='{{BASE_URL}}/a.png'><img src='{{BASE_URL}}/b.png'>".
  repeat split; reflexivity.
Defined.

(** X17, an instance: the template, host name and base path of the
    scenario. *)
Lemma no_token_left_witness :
  contains "$" "ext.local:9999" = false /\
  contains "$" "/app/root" = false /\
  Insulated EXT_SERVER_HOST_NAME "ext.local:9999" = true /\
  Insulated EXT_SERVER_HOST_NAME "/app/root" = true /\
  Insulated BASE_URL "/app/root" = true /\
  AtMostOnce EXT_SERVER_HOST_NAME scenarioTemplate /\
  occurs EXT_SERVER_HOST_NAME
    (buildIndexFile scenarioTemplate "ext.local:9999" "/app/root") = false /\
  occurs BASE_URL
    (buildIndexFile scenarioTemplate "ext.local:9999" "/app/root") = false.
Proof.
  do 5 (split; [reflexivity|]). split; [exact scenarioTemplate_once|].
  apply (no_token_left scenarioTemplate "ext.local:9999" "/app/root");
    try reflexivity.
  exact scenarioTemplate_once.
Defined.

(** X18, an instance: building again from the document of the scenario,
    with another host name and base path. *)
Lemma rebuild_is_identity_witness :
  contains "$" "ext.local:9999" = false /\
  contains "$" "/app/root" = false /\
  Insulated EXT_SERVER_HOST_NAME "ext.local:9999" = true /\
  Insulated EXT_SERVER_HOST_NAME "/app/root" = true /\
  Insulated BASE_URL "/app/root" = true /\
  AtMostOnce EXT_SERVER_HOST_NAME scenarioTemplate /\
  buildIndexFile (buildIndexFile scenarioTemplate "ext.local:9999" "/app/root")
    "localhost:45653" "/opt/sn/app/dist"
  = buildIndexFile scenarioTemplate "ext.local:9999" "/app/root".
Proof.
  do 5 (split; [reflexivity|]). split; [exact scenarioTemplate_once|].
  apply (rebuild_is_identity scenarioTemplate "ext.local:9999" "/app/root"
           "localhost:45653" "/opt/sn/app/dist");
    try reflexivity.
  exact scenarioTemplate_once.
Defined.

End ReplaceFacts.


(** ** Nested calls of [path.join] *)

Module PathFacts.
Import JSString Path StringFacts ReplaceSpec PathSpec.
Local Open Scope list_scope.

Lemma split_app_slash (u v cur : string) :
  split cur (u ++ String "/" v) = split cur u ++ split "" v.
Proof.
  revert cur. induction u as [|c u IH]; intros cur; [reflexivity|].
  cbn [append split]. destruct (Ascii.eqb c "/").
  - now rewrite IH.
  - apply IH.
Qed.

Lemma contains_snoc (cur : string) (c d : ascii) :
  contains d cur = false -> Ascii.eqb c d = false ->
  contains d (snoc cur c) = false.
Proof.
  intros Hc Hd. induction cur as [|e cur IH]; cbn in *.
  - now rewrite Hd.
  - apply orb_false_iff in Hc. destruct Hc as [-> Hc]. now apply IH.
Qed.

Lemma split_slash_free (s : string) :
  forall cur, contains "/" cur = false ->
              Forall (fun seg => contains "/" seg = false) (split cur s).
Proof.
  induction s as [|c s IH]; intros cur Hcur; cbn [split].
  - now constructor.
  - destruct (Ascii.eqb c "/") eqn:E.
    + constructor; [exact Hcur | now apply IH].
    + apply IH. now apply contains_snoc.
Qed.

Lemma split_segment (seg : string) :
  forall cur, contains "/" seg = false -> split cur seg = [(cur ++ seg)%string].
Proof.
  induction seg as [|c seg IH]; intros cur H; cbn [split].
  - now rewrite app_nil_r.
  - cbn [contains] in H. apply orb_false_iff in H. destruct H as [-> H].
    rewrite IH by exact H. now rewrite snoc_app.
Qed.

Lemma split_concat (A : list string) :
  A <> [] -> Forall (fun seg => contains "/" seg = false) A ->
  split "" (concat "/" A) = A.
Proof.
  induction A as [|a A IH]; intros Hne Hfree; [contradiction|].
  pose proof (Forall_inv Hfree) as Ha. cbv beta in Ha.
  pose proof (Forall_inv_tail Hfree) as HA.
  destruct A as [|b A].
  - cbn [concat]. now rewrite split_segment.
  - change (concat "/" (a :: b :: A))
      with (a ++ String "/" (concat "/" (b :: A)))%string.
    rewrite split_app_slash, split_segment by exact Ha.
    rewrite IH by (discriminate || exact HA). reflexivity.
Qed.

Lemma pushSegment_named (allow : bool) (res : list string) (seg : string) :
  named seg = true -> pushSegment allow res seg = res ++ [seg].
Proof.
  unfold named, pushSegment. intros H.
  apply andb_true_iff in H. destruct H as [H H3].
  apply andb_true_iff in H. destruct H as [H1 H2].
  apply negb_true_iff in H1, H2, H3. now rewrite H1, H2, H3.
Qed.

Lemma fold_pushSegment_named (allow : bool) (A : list string) :
  forall res, Forall (fun seg => named seg = true) A ->
              fold_left (pushSegment allow) A res = res ++ A.
Proof.
  induction A as [|a A IH]; intros res H; cbn [fold_left].
  - now rewrite List.app_nil_r.
  - rewrite pushSegment_named by exact (Forall_inv H).
    rewrite IH by exact (Forall_inv_tail H). now rewrite <- List.app_assoc.
Qed.

Lemma pushSegment_skip (allow : bool) (res : list string) (seg : string) :
  ((seg =? "") || (seg =? "."))%string = true -> pushSegment allow res seg = res.
Proof. unfold pushSegment. now intros ->. Qed.

Lemma pushSegment_up (allow : bool) (res : list string) (last seg : string) :
  ((seg =? "") || (seg =? "."))%string = false ->
  (seg =? "..")%string = true ->
  named last = true ->
  pushSegment allow (res ++ [last]) seg = res.
Proof.
  unfold pushSegment, named. intros -> -> Hl.
  apply andb_true_iff in Hl. destruct Hl as [_ Hl]. apply negb_true_iff in Hl.
  rewrite rev_app_distr. cbn [rev app]. rewrite Hl. apply removelast_last.
Qed.

(** As long as the walk stays below the root, the stack of directory names
    does not depend on whether [..] may pass the root, nor on what lies
    under the stack. *)
Lemma fold_pushSegment_below (allow allow' : bool) (P : string -> Prop)
    (segs : list string) :
  forall res pre n,
    Forall (fun seg => named seg = true) res ->
    Forall P res -> Forall P segs ->
    descend (List.length res) segs = Some n ->
    Forall (fun seg => named seg = true) (fold_left (pushSegment allow) segs res) /\
    Forall P (fold_left (pushSegment allow) segs res) /\
    List.length (fold_left (pushSegment allow) segs res) = n /\
    fold_left (pushSegment allow') segs (pre ++ res)
    = pre ++ fold_left (pushSegment allow) segs res.
Proof.
  induction segs as [|seg segs IH]; intros res pre n Hres HP HPs Hd;
    cbn [fold_left].
  - cbn in Hd. injection Hd as <-. auto.
  - cbn [descend] in Hd.
    pose proof (Forall_inv HPs) as HPseg. pose proof (Forall_inv_tail HPs) as HPs'.
    destruct ((seg =? "") || (seg =? "."))%string eqn:E1.
    { rewrite !pushSegment_skip by exact E1. now apply IH. }
    destruct (seg =? "..")%string eqn:E2.
    + destruct (exists_last (l:=res)) as (res' & last & ->).
      { intros ->. discriminate Hd. }
      rewrite List.length_app in Hd. cbn [List.length] in Hd.
      replace (List.length res' + 1) with (S (List.length res')) in Hd by lia.
      apply Forall_app in Hres. destruct Hres as [Hres' Hlast].
      pose proof (Forall_inv Hlast) as Hl. cbv beta in Hl.
      apply Forall_app in HP. destruct HP as [HP' _].
      rewrite List.app_assoc.
      rewrite !pushSegment_up by assumption.
      now apply IH.
    + assert (Hn : named seg = true).
      { unfold named. apply orb_false_iff in E1. destruct E1 as [-> ->].
        now rewrite E2. }
      rewrite !pushSegment_named by exact Hn.
      rewrite <- List.app_assoc. apply IH.
      * apply Forall_app. split; [exact Hres | now constructor].
      * apply Forall_app. split; [exact HP | now constructor].
      * exact HPs'.
      * rewrite List.length_app. cbn [List.length].
        now replace (List.length res + 1) with (S (List.length res)) by lia.
Qed.

Lemma descend_app (a b : list string) :
  forall n, descend n (a ++ b)
            = match descend n a with
              | Some m => descend m b
              | None => None
              end.
Proof.
  induction a as [|seg a IH]; intros n; cbn [app descend]; [reflexivity|].
  destruct ((seg =? "") || (seg =? "."))%string; [apply IH|].
  destruct (seg =? "..")%string; [|apply IH].
  destruct n; [reflexivity | apply IH].
Qed.

Lemma endsWithSlash_lastOr (c : ascii) (s : string) :
  endsWithSlash (String c s) = Ascii.eqb (lastOr c s) "/".
Proof.
  unfold endsWithSlash. revert c. induction s as [|a s IH]; intros c.
  - reflexivity.
  - specialize (IH a). cbn [list_ascii_of_string rev lastOr] in *.
    destruct (rev (list_ascii_of_string s) ++ [a]) as [|x t] eqn:E.
    + symmetry in E. now apply app_cons_not_nil in E.
    + exact IH.
Qed.

Lemma lastOr_app (u : string) (c : ascii) (x : string) :
  forall d, lastOr d (u ++ String c x) = lastOr c x.
Proof. induction u as [|e u IH]; intros d; cbn [append lastOr]; auto. Qed.

Lemma endsWithSlash_app (u x : string) :
  x <> "" -> endsWithSlash (u ++ x) = endsWithSlash x.
Proof.
  destruct x as [|c x]; [contradiction|]. intros _.
  destruct u as [|e u]; [reflexivity|].
  cbn [append]. now rewrite !endsWithSlash_lastOr, lastOr_app.
Qed.

Lemma lastOr_slash_free (s : string) :
  forall c, contains "/" (String c s) = false -> Ascii.eqb (lastOr c s) "/" = false.
Proof.
  induction s as [|a s IH]; intros c H; cbn [contains lastOr] in *.
  - now apply orb_false_iff in H.
  - apply orb_false_iff in H. destruct H as [_ H]. now apply IH.
Qed.

Lemma concat_named (A : list string) :
  A <> [] -> Forall (fun seg => named seg = true) A -> concat "/" A <> "".
Proof.
  destruct A as [|a A]; [contradiction|]. intros _ H.
  pose proof (Forall_inv H) as Ha. cbv beta in Ha.
  destruct a as [|c a]; [discriminate Ha|].
  destruct A; cbn; discriminate.
Qed.

Lemma endsWithSlash_concat (A : list string) :
  A <> [] ->
  Forall (fun seg => named seg = true) A ->
  Forall (fun seg => contains "/" seg = false) A ->
  endsWithSlash (concat "/" A) = false.
Proof.
  induction A as [|a A IH]; intros Hne Hn Hf; [contradiction|].
  destruct A as [|b A].
  - pose proof (Forall_inv Hn) as Ha. pose proof (Forall_inv Hf) as Hs.
    cbv beta in Ha, Hs. cbn [concat].
    destruct a as [|c a]; [discriminate Ha|].
    rewrite endsWithSlash_lastOr. now apply lastOr_slash_free.
  - change (concat "/" (a :: b :: A))
      with (a ++ String "/" (concat "/" (b :: A)))%string.
    rewrite endsWithSlash_app by discriminate.
    change (String "/" (concat "/" (b :: A))) with ("/" ++ concat "/" (b :: A))%string.
    rewrite endsWithSlash_app.
    + apply IH; [discriminate | exact (Forall_inv_tail Hn) | exact (Forall_inv_tail Hf)].
    + apply concat_named; [discriminate | exact (Forall_inv_tail Hn)].
Qed.

Lemma normalize_relative (y : string) :
  y <> "" -> prefix "/" y = false ->
  normalize y
  = if (normalizeString y true =? "")%string
    then (if endsWithSlash y then "./" else ".")
    else if endsWithSlash y then (normalizeString y true ++ "/")%string
         else normalizeString y true.
Proof.
  intros Hy Hp. unfold normalize. apply String.eqb_neq in Hy. rewrite Hy, Hp.
  cbn [negb]. reflexivity.
Qed.

Lemma normalizeString_file (z : string) :
  normalizeString ("file://" ++ "/" ++ z) true
  = concat "/" (fold_left (pushSegment true) (split "" z) ["file:"]).
Proof. reflexivity. Qed.

Lemma normalize_file (z : string) (A : list string) :
  z <> "" ->
  fold_left (pushSegment true) (split "" z) ["file:"] = "file:" :: A ->
  normalize ("file://" ++ "/" ++ z)
  = if endsWithSlash z then (concat "/" ("file:" :: A) ++ "/")%string
    else concat "/" ("file:" :: A).
Proof.
  intros Hz HA. rewrite normalize_relative; [|discriminate|reflexivity].
  rewrite normalizeString_file, HA.
  change ("file://" ++ "/" ++ z)%string with ("file:///" ++ z)%string.
  rewrite endsWithSlash_app by exact Hz.
  replace (concat "/" ("file:" :: A) =? "")%string with false; [reflexivity|].
  symmetry. apply String.eqb_neq. destruct A; cbn; discriminate.
Qed.

Lemma normalize_absolute (x : string) (k : nat) :
  prefix "/" x = true ->
  descend 0 (split "" x) = Some (S k) ->
  normalize x
  = ("/" ++ concat "/" (fold_left (pushSegment false) (split "" x) [])
         ++ (if endsWithSlash x then "/" else ""))%string.
Proof.
  intros Hp Hd.
  destruct (fold_pushSegment_below false false (fun _ => True) (split "" x) [] [] (S k))
    as (HA & _ & HL & _); auto.
  { apply Forall_forall. auto. }
  set (A := fold_left (pushSegment false) (split "" x) []) in *.
  assert (HneA : A <> []) by (intros E; rewrite E in HL; discriminate HL).
  pose proof (concat_named A HneA HA) as Hc. apply String.eqb_neq in Hc.
  unfold normalize, normalizeString. fold A.
  destruct x as [|c x]; [discriminate Hp|].
  cbn [String.eqb]. rewrite Hp. cbn [negb]. fold A.
  rewrite Hc. destruct (endsWithSlash (String c x)).
  - reflexivity.
  - now rewrite app_nil_r.
Qed.

(** Normalising an absolute path that stays below the root and putting it
    behind [file://] gives what normalising the whole does. *)
Lemma normalize_nested (x : string) (k : nat) :
  prefix "/" x = true ->
  descend 0 (split "" x) = Some (S k) ->
  normalize ("file://" ++ "/" ++ normalize x) = normalize ("file://" ++ "/" ++ x).
Proof.
  intros Hp Hd.
  pose proof (split_slash_free x "" eq_refl) as Hsf.
  destruct (fold_pushSegment_below false true (fun seg => contains "/" seg = false)
              (split "" x) [] ["file:"] (S k))
    as (HA & HS & HL & HF); auto.
  rewrite (normalize_absolute x k Hp Hd).
  set (A := fold_left (pushSegment false) (split "" x) []) in *.
  cbn [app] in HF.
  assert (HneA : A <> []) by (intros E; rewrite E in HL; discriminate HL).
  assert (Hx : x <> "") by (intros ->; discriminate Hp).
  rewrite (normalize_file x A Hx HF).
  destruct (endsWithSlash x).
  - rewrite (normalize_file _ A); [|discriminate|].
    + rewrite (endsWithSlash_app "/" (concat "/" A ++ "/"))
        by (destruct (concat "/" A); discriminate).
      now rewrite (endsWithSlash_app (concat "/" A) "/") by discriminate.
    + cbn [append split Ascii.eqb Bool.eqb fold_left].
      rewrite pushSegment_skip by reflexivity.
      change (concat "/" A ++ "/")%string with (concat "/" A ++ String "/" "")%string.
      rewrite split_app_slash, split_concat by assumption.
      rewrite fold_left_app, (fold_pushSegment_named true A) by exact HA.
      cbn [split fold_left]. now rewrite pushSegment_skip by reflexivity.
  - rewrite app_nil_r. rewrite (normalize_file _ A); [|discriminate|].
    + rewrite endsWithSlash_app by (now apply concat_named).
      now rewrite endsWithSlash_concat.
    + cbn [append split Ascii.eqb Bool.eqb fold_left].
      rewrite pushSegment_skip by reflexivity.
      rewrite split_concat by assumption.
      now rewrite (fold_pushSegment_named true A) by exact HA.
Qed.

(** [path.join('file://', dir, rel)] and
    [path.join('file://', path.join(dir, rel))] agree for an absolute [dir]
    when the walk through [dir] and [rel] stays below the root. *)
Lemma join_nested (dir rel : string) :
  staysBelowRoot dir (Some rel) = true ->
  join ["file://"; dir; rel] = join ["file://"; join [dir; rel]].
Proof.
  unfold staysBelowRoot. intros H. apply andb_true_iff in H. destruct H as [Hp Hd].
  destruct (descend 0 (split "" dir ++ split "" rel)) as [[|k]|] eqn:E;
    try discriminate Hd. clear Hd.
  destruct dir as [|c dir]; [discriminate Hp|].
  assert (Hfile : forall x, prefix "/" x = true ->
                            descend 0 (split "" x) = Some (S k) ->
                            join ["file://"; normalize x] = normalize ("file://" ++ "/" ++ x)).
  { intros x Hx Hdx. rewrite <- (normalize_nested x k Hx Hdx).
    rewrite (normalize_absolute x k Hx Hdx). reflexivity. }
  destruct rel as [|e rel].
  - rewrite descend_app in E.
    destruct (descend 0 (split "" (String c dir))) as [m|] eqn:E'; [|discriminate E].
    cbn in E. injection E as ->.
    change (join [String c dir; ""]) with (normalize (String c dir)).
    rewrite (Hfile _ Hp E'). reflexivity.
  - change (join [String c dir; String e rel])
      with (normalize (String c dir ++ String "/" (String e rel))).
    rewrite Hfile.
    + reflexivity.
    + now apply prefix_app_mono.
    + now rewrite split_app_slash.
Qed.

End PathFacts.

(** ** The reply to [get-web-root] and the stored base path *)

Module WebRootFacts.
Import JSString Application Lifecycle PathSpec PathFacts.
Local Open Scope list_scope.

(** C5, as amended.  With POSIX [path.join]: whenever the environment
    variable has the value it had at start-up, [__dirname] is absolute and
    the walk through [__dirname] and the relative path stays below the root,
    the reply to [get-web-root] is [path.join('file://', state.webRoot)], in
    the callback and in what a request records.  The callback does not read
    [state]: two processes with the same value of the variable give the same
    reply, whatever their states are. *)
Theorem web_root_reply_agrees_below_root {W : Type} {BW : BrowserWindow W}
    (host : Host) (o0 : Outside) (evs : list (Event W)) :
  APP_RELATIVE_PATH
    (outside (run Path.join host evs (initializeApplication Path.join host o0)))
  = APP_RELATIVE_PATH o0 ->
  staysBelowRoot (dirname host) (APP_RELATIVE_PATH o0) = true ->
  ipcHandler Path.join host WebRoot
    (run Path.join host evs (initializeApplication Path.join host o0))
  = Some (Normal (ReplyString
       (Path.join
          ["file://";
           webRoot (state (run Path.join host evs
                             (initializeApplication Path.join host o0)))]))) /\
  trace (step Path.join host (IpcInvoke WebRoot)
           (run Path.join host evs (initializeApplication Path.join host o0)))
  = (if ipcHandlers (run Path.join host evs (initializeApplication Path.join host o0))
     then
       [Did (IpcReturn WebRoot
               (Normal (ReplyString
                  (Path.join
                     ["file://";
                      webRoot (state (run Path.join host evs
                                        (initializeApplication Path.join host o0)))]))));
        Did ConsoleLog]
     else [])
    ++ Occurred (IpcInvoke WebRoot)
       :: trace (run Path.join host evs (initializeApplication Path.join host o0)) /\
  (forall w w' : World W,
      APP_RELATIVE_PATH (outside w) = APP_RELATIVE_PATH (outside w') ->
      ipcHandler Path.join host WebRoot w = ipcHandler Path.join host WebRoot w').
Proof.
  intros Henv Hbelow.
  destruct (Inv_run Path.join host o0 evs) as [(_ & Hw & _) _ _ _ _ _ _ _ _].
  set (w := run Path.join host evs (initializeApplication Path.join host o0)) in *.
  assert (Hreply : ipcHandler Path.join host WebRoot w
                   = Some (Normal (ReplyString (Path.join ["file://"; webRoot (state w)])))).
  { unfold ipcHandler. rewrite Hw, Henv. unfold webRoot0.
    destruct (APP_RELATIVE_PATH o0) as [rel|]; [|reflexivity].
    now rewrite (join_nested (dirname host) rel Hbelow). }
  split; [exact Hreply|]. split.
  - unfold step. cbn [enabled]. unfold handle.
    change (ipcHandlers (record (Occurred (IpcInvoke WebRoot)) w)) with (ipcHandlers w).
    change (ipcHandler Path.join host WebRoot (record (Occurred (IpcInvoke WebRoot)) w))
      with (ipcHandler Path.join host WebRoot w).
    rewrite Hreply. destruct (ipcHandlers w); reflexivity.
  - intros w1 w2 E. unfold ipcHandler. now rewrite E.
Qed.

End WebRootFacts.

(** ** The coordinator on concrete process starts *)

Module ScenarioFacts.
Import JSString IndexBuilder Application ReplaceSpec Scenarios Lifecycle.
Import PathSpec WebRootFacts.
Local Open Scope list_scope.

(** C1 as stated does not hold: when [ready] is delivered before the
    extensions server fails, the window has been created by the time the
    promise is rejected; the dialog and the call of [app.quit()] follow. *)
Lemma window_created_before_rejection :
  address (play primaryHost [AppReady; ServerFailed "EADDRINUSE"])
  = Rejected "EADDRINUSE" /\
  windowState (state (play primaryHost [AppReady; ServerFailed "EADDRINUSE"]))
  = Some created /\
  history (play primaryHost [AppReady; ServerFailed "EADDRINUSE"])
  = history (start primaryHost)
    ++ [Occurred AppReady; Did (InitializeStrings "en"); Did CreateWindowState;
        Did (IpcMainOn DisplayAppMenu); Did (IpcMainOn InitialDataLoaded);
        Did (IpcMainOn MajorDataChange);
        Did (IpcMainHandle ExtensionsServerAddress);
        Did (IpcMainHandle UseSystemMenuBar); Did (IpcMainHandle WebRoot);
        Occurred (ServerFailed "EADDRINUSE");
        Did (ShowMessageBoxSync "EADDRINUSE"); Did AppQuit;
        Did (UnhandledRejection "EADDRINUSE")] /\
  ~ ~ In (Did CreateWindowState)
        (trace (play primaryHost [AppReady; ServerFailed "EADDRINUSE"])).
Proof.
  repeat split; try (vm_compute; reflexivity).
  intros H. apply H. vm_compute. auto 20.
Qed.

(** C1, an instance: the server fails before [ready] is delivered. *)
Lemma rejected_bootstrap_is_fatal_witness :
  address (play primaryHost [ServerFailed "EADDRINUSE"]) = Rejected "EADDRINUSE" /\
  (dialogs (trace (play primaryHost ([ServerFailed "EADDRINUSE"] ++ [AppReady]))) = 1 /\
   In (Did (ShowMessageBoxSync "EADDRINUSE"))
      (trace (play primaryHost ([ServerFailed "EADDRINUSE"] ++ [AppReady]))) /\
   In (Did AppQuit)
      (trace (play primaryHost ([ServerFailed "EADDRINUSE"] ++ [AppReady]))) /\
   (forall u,
       ~ In (Did (WindowLoadURL u))
           (trace (play primaryHost ([ServerFailed "EADDRINUSE"] ++ [AppReady]))))).
Proof.
  assert (H : address (play primaryHost [ServerFailed "EADDRINUSE"])
              = Rejected "EADDRINUSE") by (vm_compute; reflexivity).
  split; [exact H|].
  exact (rejected_bootstrap_is_fatal Path.join primaryHost plainOutside
           [ServerFailed "EADDRINUSE"] [AppReady] "EADDRINUSE" H).
Defined.

(** C2, on the code: a process that did not get the lock has started the
    extensions server before [ready] is delivered, and when the server
    reports its host name in time it writes the start document as well;
    only then does the [ready] listener quit. *)
Theorem losing_instance_starts_server_and_writes_document :
  isPrimaryInstance (state (start losingHost)) = false /\
  history (play losingHost [ServerStarted "localhost:45653"; WriteFileDone; AppReady])
  = [Did RequestSingleInstanceLock; Did (NewStore "/home/u/.config/sn");
     Did CreateExtensionsServer; Did (AppOn "second-instance");
     Did (AppOn "window-all-closed"); Did (AppOn "before-quit");
     Did (AppOn "activate"); Did (AppOn "ready");
     Occurred (ServerStarted "localhost:45653");
     Did (FsWriteFile "/home/u/.config/sn/index.html"
            (buildIndexFile scenarioTemplate "localhost:45653" "/opt/sn/app/dist"));
     Occurred WriteFileDone; Occurred AppReady;
     Did (ConsoleWarn "Quiting app and focusing existing instance.");
     Did AppQuit] /\
  document (play losingHost [ServerStarted "localhost:45653"; WriteFileDone; AppReady])
  = Written (buildIndexFile scenarioTemplate "localhost:45653" "/opt/sn/app/dist").
Proof. repeat split; vm_compute; reflexivity. Qed.

(** C3, an instance: [ready], then the server's host name, then the end of
    the write. *)
Lemma load_follows_bootstrap_witness :
  history (play primaryHost [AppReady; ServerStarted "localhost:45653"; WriteFileDone])
  = (history (play primaryHost [AppReady; ServerStarted "localhost:45653"])
     ++ [Occurred WriteFileDone])
    ++ Did (WindowLoadURL "/home/u/.config/sn/index.html") :: [] /\
  ("/home/u/.config/sn/index.html" = startUrl0 Path.join primaryHost /\
   (exists h l1 l2 l3 l4,
       history (play primaryHost [AppReady; ServerStarted "localhost:45653"])
       ++ [Occurred WriteFileDone]
       = l1 ++ Occurred (ServerStarted h)
            :: l2 ++ Did (FsWriteFile (startUrl0 Path.join primaryHost)
                            (buildIndexFile (index primaryHost) h
                               (webRoot0 Path.join primaryHost plainOutside)))
            :: l3 ++ Occurred WriteFileDone :: l4) /\
   Forall (fun eff =>
             In (Did eff)
                (history (play primaryHost [AppReady; ServerStarted "localhost:45653"])
                 ++ [Occurred WriteFileDone]))
          registrations).
Proof.
  assert (H : history (play primaryHost
                         [AppReady; ServerStarted "localhost:45653"; WriteFileDone])
              = (history (play primaryHost [AppReady; ServerStarted "localhost:45653"])
                 ++ [Occurred WriteFileDone])
                ++ Did (WindowLoadURL "/home/u/.config/sn/index.html") :: [])
    by (vm_compute; reflexivity).
  split; [exact H|].
  exact (load_follows_bootstrap Path.join primaryHost plainOutside
           [AppReady; ServerStarted "localhost:45653"; WriteFileDone]
           (history (play primaryHost [AppReady; ServerStarted "localhost:45653"])
            ++ [Occurred WriteFileDone])
           []
           "/home/u/.config/sn/index.html" H).
Defined.

(** The callback reads the environment when it is called: were the
    variable set to [../web] while the process runs, the reply would be
    built from it, while the stored base path is still the installation
    directory. *)
Lemma web_root_reply_differs_from_stored_base_path :
  webRoot (state (play primaryHost [AppReady; OutsideChanged relocatedOutside]))
  = "/opt/sn/app/dist" /\
  ipcHandler Path.join primaryHost WebRoot
    (play primaryHost [AppReady; OutsideChanged relocatedOutside])
  = Some (Normal (ReplyString "file:/opt/sn/app/web")) /\
  Path.join ["file://";
             webRoot (state (play primaryHost
                               [AppReady; OutsideChanged relocatedOutside]))]
  = "file:/opt/sn/app/dist" /\
  ipcHandler Path.join primaryHost WebRoot
    (play primaryHost [AppReady; OutsideChanged relocatedOutside])
  <> Some (Normal (ReplyString
       (Path.join ["file://";
                   webRoot (state (play primaryHost
                                     [AppReady; OutsideChanged relocatedOutside]))]))).
Proof. repeat split; try (vm_compute; reflexivity). vm_compute. discriminate. Qed.

(** C10, an instance: the server fails, then [ready] is delivered. *)
Lemma no_write_after_server_failure_witness :
  hostName (play primaryHost [ServerFailed "EADDRINUSE"]) = Rejected "EADDRINUSE" /\
  ((forall p c,
       ~ In (Did (FsWriteFile p c))
           (trace (play primaryHost ([ServerFailed "EADDRINUSE"] ++ [AppReady])))) /\
   document (play primaryHost ([ServerFailed "EADDRINUSE"] ++ [AppReady])) = Untouched).
Proof.
  assert (H : hostName (play primaryHost [ServerFailed "EADDRINUSE"])
              = Rejected "EADDRINUSE") by (vm_compute; reflexivity).
  split; [exact H|].
  exact (no_write_after_server_failure Path.join primaryHost plainOutside
           [ServerFailed "EADDRINUSE"] [AppReady] "EADDRINUSE" H).
Defined.

(** The scenario of the second launch: a hidden window is shown and
    focused, and no window is created. *)
Lemma second_instance_shows_hidden_window :
  forall w : World FlagWindow,
    windowState (state w) = Some hiddenWindow ->
    windowState (state (onSecondInstance w))
    = Some {| fw_visible := true; fw_minimized := false; fw_focused := true;
              fw_url := Some "/home/u/.config/sn/index.html" |} /\
    trace (onSecondInstance w) = Did WindowFocus :: Did WindowShow :: trace w.
Proof.
  intros [[] ? ? ? ? ? ? ? ? ?] Hw. cbn in Hw. subst.
  split; reflexivity.
Qed.

(** X3, an instance: the server has reported its host name. *)
Lemma start_document_written_once_witness :
  In (Did (FsWriteFile "/home/u/.config/sn/index.html"
             (buildIndexFile scenarioTemplate "localhost:45653" "/opt/sn/app/dist")))
     (trace (play primaryHost [ServerStarted "localhost:45653"])) /\
  (times isFsWriteFile (trace (play primaryHost [ServerStarted "localhost:45653"])) = 1 /\
   "/home/u/.config/sn/index.html" = startUrl0 Path.join primaryHost /\
   exists h,
     hostName (play primaryHost [ServerStarted "localhost:45653"]) = Fulfilled h /\
     buildIndexFile scenarioTemplate "localhost:45653" "/opt/sn/app/dist"
     = buildIndexFile (index primaryHost) h
         (webRoot0 Path.join primaryHost plainOutside)).
Proof.
  assert (H : In (Did (FsWriteFile "/home/u/.config/sn/index.html"
                         (buildIndexFile scenarioTemplate "localhost:45653"
                            "/opt/sn/app/dist")))
                 (trace (play primaryHost [ServerStarted "localhost:45653"])))
    by (vm_compute; left; reflexivity).
  split; [exact H|].
  exact (start_document_written_once Path.join primaryHost plainOutside
           [ServerStarted "localhost:45653"]
           "/home/u/.config/sn/index.html"
           (buildIndexFile scenarioTemplate "localhost:45653" "/opt/sn/app/dist") H).
Defined.


(** X10, an instance: [ready], then the server fails. *)
Lemma rejection_after_ready_is_unhandled_witness :
  address (play primaryHost [AppReady; ServerFailed "EADDRINUSE"])
  = Rejected "EADDRINUSE" /\
  readyEmitted (play primaryHost [AppReady; ServerFailed "EADDRINUSE"]) = true /\
  lockGranted primaryHost = true /\
  (finish (play primaryHost [AppReady; ServerFailed "EADDRINUSE"])
   = Some (Rejected "EADDRINUSE") /\
   In (Did (UnhandledRejection "EADDRINUSE"))
      (trace (play primaryHost [AppReady; ServerFailed "EADDRINUSE"]))).
Proof.
  assert (H1 : address (play primaryHost [AppReady; ServerFailed "EADDRINUSE"])
               = Rejected "EADDRINUSE") by (vm_compute; reflexivity).
  assert (H2 : readyEmitted (play primaryHost [AppReady; ServerFailed "EADDRINUSE"])
               = true) by (vm_compute; reflexivity).
  split; [exact H1|]. split; [exact H2|]. split; [reflexivity|].
  exact (rejection_after_ready_is_unhandled Path.join primaryHost plainOutside
           [AppReady; ServerFailed "EADDRINUSE"] "EADDRINUSE" H1 H2 eq_refl).
Defined.

(** X11, an instance: the server starts, then the write fails. *)
Lemma write_failure_is_fatal_witness :
  writeFile (play primaryHost [ServerStarted "localhost:45653"; WriteFileFailed "EACCES"])
  = Some (Rejected "EACCES") /\
  (address (play primaryHost [ServerStarted "localhost:45653"; WriteFileFailed "EACCES"])
   = Rejected "EACCES" /\
   dialogs (trace (play primaryHost
                     [ServerStarted "localhost:45653"; WriteFileFailed "EACCES"])) = 1 /\
   In (Did (ShowMessageBoxSync "EACCES"))
      (trace (play primaryHost
                [ServerStarted "localhost:45653"; WriteFileFailed "EACCES"])) /\
   In (Did AppQuit)
      (trace (play primaryHost
                [ServerStarted "localhost:45653"; WriteFileFailed "EACCES"])) /\
   (forall u,
       ~ In (Did (WindowLoadURL u))
           (trace (play primaryHost
                     [ServerStarted "localhost:45653"; WriteFileFailed "EACCES"])))).
Proof.
  assert (H : writeFile (play primaryHost
                           [ServerStarted "localhost:45653"; WriteFileFailed "EACCES"])
              = Some (Rejected "EACCES")) by (vm_compute; reflexivity).
  split; [exact H|].
  exact (write_failure_is_fatal Path.join primaryHost plainOutside
           [ServerStarted "localhost:45653"; WriteFileFailed "EACCES"] "EACCES" H).
Defined.

(** X13, an instance: the start that did not get the lock, with the server
    up and the document written before [ready]. *)
Lemma losing_instance_only_quits_witness :
  lockGranted losingHost = false /\
  ((In (Occurred AppReady)
       (trace (play losingHost
                 [ServerStarted "localhost:45653"; WriteFileDone; AppReady])) ->
    In (Did AppQuit)
       (trace (play losingHost
                 [ServerStarted "localhost:45653"; WriteFileDone; AppReady]))) /\
   (forall m,
       times (isRegistration m)
         (trace (play losingHost
                   [ServerStarted "localhost:45653"; WriteFileDone; AppReady])) = 0) /\
   times isCreateTrayIcon
     (trace (play losingHost
               [ServerStarted "localhost:45653"; WriteFileDone; AppReady])) = 0 /\
   times isWindowLoadURL
     (trace (play losingHost
               [ServerStarted "localhost:45653"; WriteFileDone; AppReady])) = 0).
Proof.
  split; [reflexivity|].
  exact (losing_instance_only_quits Path.join losingHost plainOutside
           [ServerStarted "localhost:45653"; WriteFileDone; AppReady] eq_refl).
Defined.

(** X14, an instance: the server starts and the write ends before [ready]
    is delivered. *)
Lemma window_loads_once_ready_and_bootstrapped_witness :
  lockGranted primaryHost = true /\
  In (Occurred AppReady)
     (trace (play primaryHost
               [ServerStarted "localhost:45653"; WriteFileDone; AppReady])) /\
  address (play primaryHost [ServerStarted "localhost:45653"; WriteFileDone; AppReady])
  = Fulfilled "localhost:45653" /\
  (times isWindowLoadURL
     (trace (play primaryHost
               [ServerStarted "localhost:45653"; WriteFileDone; AppReady])) = 1 /\
   In (Did (WindowLoadURL (Path.join [userData primaryHost; "index.html"])))
      (trace (play primaryHost
                [ServerStarted "localhost:45653"; WriteFileDone; AppReady]))).
Proof.
  assert (H1 : In (Occurred AppReady)
                  (trace (play primaryHost
                            [ServerStarted "localhost:45653"; WriteFileDone; AppReady])))
    by (vm_compute; repeat first [left; reflexivity | right]).
  assert (H2 : address (play primaryHost
                          [ServerStarted "localhost:45653"; WriteFileDone; AppReady])
               = Fulfilled "localhost:45653") by (vm_compute; reflexivity).
  split; [reflexivity|]. split; [exact H1|]. split; [exact H2|].
  exact (window_loads_once_ready_and_bootstrapped Path.join primaryHost plainOutside
           [ServerStarted "localhost:45653"; WriteFileDone; AppReady]
           "localhost:45653" eq_refl H1 H2).
Defined.

(** C5 as stated does not hold, also when the environment never changes:
    with [APP_RELATIVE_PATH] leading above the root, the stored base path
    stops at the root while the reply, joined behind [file://], loses its
    scheme. *)
Lemma web_root_reply_differs_above_root :
  APP_RELATIVE_PATH
    (outside (run Path.join primaryHost [AppReady; IpcInvoke WebRoot]
                (initializeApplication (W:=FlagWindow) Path.join primaryHost
                   climbingOutside)))
  = APP_RELATIVE_PATH climbingOutside /\
  webRoot (state (run Path.join primaryHost [AppReady; IpcInvoke WebRoot]
                    (initializeApplication (W:=FlagWindow) Path.join primaryHost
                       climbingOutside)))
  = "/x" /\
  In (Did (IpcReturn WebRoot (Normal (ReplyString "x"))))
     (trace (run Path.join primaryHost [AppReady; IpcInvoke WebRoot]
               (initializeApplication (W:=FlagWindow) Path.join primaryHost
                  climbingOutside))) /\
  ipcHandler Path.join primaryHost WebRoot
    (run Path.join primaryHost [AppReady; IpcInvoke WebRoot]
       (initializeApplication (W:=FlagWindow) Path.join primaryHost climbingOutside))
  = Some (Normal (ReplyString "x")) /\
  Path.join
    ["file://";
     webRoot (state (run Path.join primaryHost [AppReady; IpcInvoke WebRoot]
                       (initializeApplication (W:=FlagWindow) Path.join primaryHost
                          climbingOutside)))]
  = "file:/x" /\
  ipcHandler Path.join primaryHost WebRoot
    (run Path.join primaryHost [AppReady; IpcInvoke WebRoot]
       (initializeApplication (W:=FlagWindow) Path.join primaryHost climbingOutside))
  <> Some (Normal (ReplyString
       (Path.join
          ["file://";
           webRoot (state (run Path.join primaryHost [AppReady; IpcInvoke WebRoot]
                             (initializeApplication (W:=FlagWindow) Path.join
                                primaryHost climbingOutside)))]))).
Proof.
  repeat split; try (vm_compute; reflexivity).
  - vm_compute. left. reflexivity.
  - vm_compute. discriminate.
Qed.

(** C5, an instance: the process is started with [APP_RELATIVE_PATH] set to
    [../web]. *)
Lemma web_root_reply_agrees_below_root_witness :
  APP_RELATIVE_PATH
    (outside (run Path.join primaryHost [AppReady]
                (initializeApplication (W:=FlagWindow) Path.join primaryHost
                   relocatedOutside)))
  = APP_RELATIVE_PATH relocatedOutside /\
  staysBelowRoot (dirname primaryHost) (APP_RELATIVE_PATH relocatedOutside) = true /\
  (ipcHandler Path.join primaryHost WebRoot
     (run Path.join primaryHost [AppReady]
        (initializeApplication (W:=FlagWindow) Path.join primaryHost relocatedOutside))
   = Some (Normal (ReplyString
        (Path.join
           ["file://";
            webRoot (state (run Path.join primaryHost [AppReady]
                              (initializeApplication (W:=FlagWindow) Path.join
                                 primaryHost relocatedOutside)))]))) /\
   trace (step Path.join primaryHost (IpcInvoke WebRoot)
            (run Path.join primaryHost [AppReady]
               (initializeApplication (W:=FlagWindow) Path.join primaryHost
                  relocatedOutside)))
   = (if ipcHandlers (run Path.join primaryHost [AppReady]
                        (initializeApplication (W:=FlagWindow) Path.join primaryHost
                           relocatedOutside))
      then
        [Did (IpcReturn WebRoot
                (Normal (ReplyString
                   (Path.join
                      ["file://";
                       webRoot (state (run Path.join primaryHost [AppReady]
                                         (initializeApplication (W:=FlagWindow)
                                            Path.join primaryHost
                                            relocatedOutside)))]))));
         Did ConsoleLog]
      else [])
     ++ Occurred (IpcInvoke WebRoot)
        :: trace (run Path.join primaryHost [AppReady]
                    (initializeApplication (W:=FlagWindow) Path.join primaryHost
                       relocatedOutside)) /\
   (forall w w' : World FlagWindow,
       APP_RELATIVE_PATH (outside w) = APP_RELATIVE_PATH (outside w') ->
       ipcHandler Path.join primaryHost WebRoot w
       = ipcHandler Path.join primaryHost WebRoot w')).
Proof.
  assert (H1 : APP_RELATIVE_PATH
                 (outside (run Path.join primaryHost [AppReady]
                             (initializeApplication (W:=FlagWindow) Path.join
                                primaryHost relocatedOutside)))
               = APP_RELATIVE_PATH relocatedOutside) by (vm_compute; reflexivity).
  assert (H2 : staysBelowRoot (dirname primaryHost)
                 (APP_RELATIVE_PATH relocatedOutside) = true)
    by (vm_compute; reflexivity).
  split; [exact H1|]. split; [exact H2|].
  exact (web_root_reply_agrees_below_root primaryHost relocatedOutside [AppReady] H1 H2).
Defined.

(** X9, an instance: the menu is asked for once the window is set up. *)
Lemma collaborators_called_only_on_request_witness :
  isCollaboratorCall PopupMenu = true /\
  trace (play primaryHost [AppReady; IpcSend DisplayAppMenu])
  = [] ++ Did PopupMenu
          :: Occurred (IpcSend DisplayAppMenu) :: trace (play primaryHost [AppReady]) /\
  (exists m rest,
      ipcListener m = Some PopupMenu /\
      Occurred (IpcSend DisplayAppMenu) :: trace (play primaryHost [AppReady])
      = Occurred (IpcSend m) :: rest /\
      In (Did (IpcMainOn m)) rest).
Proof.
  assert (H : trace (play primaryHost [AppReady; IpcSend DisplayAppMenu])
              = [] ++ Did PopupMenu
                      :: Occurred (IpcSend DisplayAppMenu)
                         :: trace (play primaryHost [AppReady]))
    by (vm_compute; reflexivity).
  split; [reflexivity|]. split; [exact H|].
  exact (collaborators_called_only_on_request Path.join primaryHost plainOutside
           [AppReady; IpcSend DisplayAppMenu] []
           (Occurred (IpcSend DisplayAppMenu) :: trace (play primaryHost [AppReady]))
           PopupMenu eq_refl H).
Defined.

End ScenarioFacts.
